(** * twodfinite_well.py: bound states of an AlGaAs/GaAs finite quantum well

    A shallow embedding of the script [twodfinite_well.py].  The script is a
    straight-line sequence of calls into DOLFIN (mesh, function space, UFL
    forms, assembly), one SLEPc eigensolve, a [while] loop that collects the
    eigenpairs below the barrier potential and a [for] loop that reports them.

    Modelling choices.
    - Python [int]s are [Z]; Python [float]s are exact rationals [Q] (only
      their order and the literals of the script are used).
    - Objects that DOLFIN builds are kept as the description the script gives
      of them (a mesh is the arguments of [RectangleMesh], a mesh function is
      the list of marks applied to it, a matrix is the form assembled into
      it).  What the library computes from such a description is not modelled
      here, except for the eigensolver, whose answer is a field of the
      environment [Library].
    - Effects are a log of the calls the script makes, the two matrices it
      owns, and an outcome: returned, exited, or raised. *)

From Stdlib Require Import ZArith QArith Qfield List String Bool Lia Lqa.
From Stdlib Require Import DecimalString.
Import ListNotations.

Local Open Scope Z_scope.

(** ** Python helpers *)

(** [l.append(x)] *)
Definition append {A : Type} (l : list A) (x : A) : list A := l ++ [x].

(** [l[k]] for [k >= 0]: [None] stands for [IndexError]. *)
Definition getitem {A : Type} (l : list A) (k : nat) : option A := nth_error l k.

(** [range(n)] for a Python int [n]; empty when [n <= 0]. *)
Definition range (n : Z) : list nat := seq 0 (Z.to_nat n).

(** [len(l)] *)
Definition len {A : Type} (l : list A) : Z := Z.of_nat (List.length l).

(** [str(k)] for a non-negative int. *)
Definition str_int (k : nat) : string := NilZero.string_of_uint (Nat.to_uint k).

(** [a < b] on floats. *)
Definition Qltb (a b : Q) : bool :=
  match (a ?= b)%Q with Lt => true | _ => false end.

(** ** Geometry and material constants (lines 34-69) *)

(** hbar^2/2m0, in eV and Angstroms *)
Definition hb2m : Q := 3.81.

(** Thickness of the well *)
Definition dwell : Z := 80.

(** Thickness of the barriers *)
Definition dbar : Z := 250.

(** Total thickness of the structure *)
Definition dtot : Z := 2 * dbar + dwell.

(** Potential in the well *)
Definition vwell : Q := 0.0.

(** Potential in the barrier *)
Definition vbar : Q := 0.23.

(** Potential in the three layers *)
Definition vpot : list Q := append (append (append [] vbar) vwell) vbar.

(** Effective mass in the well *)
Definition mwell : Q := 0.067.

(** Effective mass in the barrier *)
Definition mbar : Q := 0.096.

(** ** Subdomains (lines 72-110) *)

Record Layer : Type := mkLayer { ends : Z * Z }.

Record BoundaryPoint : Type := mkBoundaryPoint { bpt : Z }.

Inductive SubDomain : Type :=
| SubLayer (l : Layer)
| SubBoundaryPoint (b : BoundaryPoint)
| PeriodicBoundary.

Definition layers : list Layer :=
  append (append (append [] (mkLayer (0, dbar)))
                 (mkLayer (dbar, dbar + dwell)))
         (mkLayer (dbar + dwell, dtot)).

Definition left : BoundaryPoint := mkBoundaryPoint 0.
Definition right : BoundaryPoint := mkBoundaryPoint dtot.

(** The [inside] predicates of lines 78-79 and 86-87.  [between] and [near]
    come from DOLFIN and are parameters; a point is the list of its
    coordinates. *)
Section Inside.

Variable between : Q -> Z * Z -> bool.
Variable near : Q -> Z -> bool.

Definition Layer_inside (self : Layer) (x : list Q) (on_boundary : bool)
  : option bool :=
  option_map (fun x0 => between x0 (ends self)) (getitem x 0).

Definition BoundaryPoint_inside (self : BoundaryPoint) (x : list Q)
           (on_boundary : bool) : option bool :=
  option_map (fun x0 => near x0 (bpt self)) (getitem x 0).

End Inside.

(** Number of elements *)
Definition nel : Z := 20.

(** Order of Lagrange trial/test functions, as declared on line 117. *)
Definition p : Z := 2.

(** ** Mesh, mesh functions, function space *)

Record Mesh : Type := RectangleMesh
  { mesh_x0 : Z; mesh_y0 : Z; mesh_x1 : Z; mesh_y1 : Z; mesh_nx : Z; mesh_ny : Z }.

Inductive entity_kind : Type := Cells | Facets.

(** A [CellFunction] or [FacetFunction]: the mesh it lives on and the marks
    applied to it, oldest first. *)
Record MeshFunction : Type := mkMeshFunction
  { mf_kind : entity_kind; mf_mesh : Mesh; mf_marks : list (SubDomain * nat) }.

Definition CellFunction (m : Mesh) : MeshFunction := mkMeshFunction Cells m [].
Definition FacetFunction (m : Mesh) : MeshFunction := mkMeshFunction Facets m [].

(** [sd.mark(mf, k)] *)
Definition mark (sd : SubDomain) (mf : MeshFunction) (k : nat) : MeshFunction :=
  mkMeshFunction (mf_kind mf) (mf_mesh mf) (append (mf_marks mf) (sd, k)).

Record FunctionSpace : Type := mkFunctionSpace
  { fs_mesh : Mesh; fs_family : string; fs_degree : Z;
    fs_constrained_domain : option SubDomain }.

Record DirichletBC : Type := mkDirichletBC
  { bc_space : FunctionSpace; bc_value : Q; bc_where : SubDomain }.

(** A [Function] over a space: its coefficient vector. *)
Record Function : Type := mkFunction
  { fun_space : FunctionSpace; fun_vector : list Q }.

(** ** UFL expressions and forms (lines 57-69, 136-150) *)

Inductive expr : Type :=
| Constant (c : Q)
| TrialFunction (V : FunctionSpace)
| TestFunction (V : FunctionSpace)
| grad (e : expr)
| inner (a b : expr)
| Mul (a b : expr)
| Add (a b : expr).

(** [Measure("dx")[domains]](k) *)
Record integral : Type := mkIntegral
  { integrand : expr; int_domains : MeshFunction; int_subdomain : nat }.

(** A form is the list of its integrals; the int [0] that [sum] starts from
    is the empty form, and [+] on forms concatenates. *)
Definition form : Type := list integral.

Definition form_add (a b : form) : form := a ++ b.

Definition sum (l : list form) : form := fold_left form_add l [].

(** [e*dx(k)] *)
Definition times_dx (dx : MeshFunction) (e : expr) (k : nat) : form :=
  [mkIntegral e dx k].

(** [map(f, l)] where [f] may raise: the first failure aborts. *)
Fixpoint map_opt {A B : Type} (f : A -> option B) (l : list A) : option (list B) :=
  match l with
  | [] => Some []
  | a :: l' =>
      match f a with
      | None => None
      | Some b => option_map (cons b) (map_opt f l')
      end
  end.

(** Line 57: [Vpot = list(map(lambda k:Constant(vpot[k]),range(3)))] *)
Definition Vpot : option (list expr) :=
  map_opt (fun k => option_map Constant (getitem vpot k)) (range 3).

(** Lines 66-69: stiffness matrix factor in the three layers *)
Definition f : list expr :=
  append (append (append [] (Constant (hb2m / mbar)))
                 (Constant (hb2m / mwell)))
         (Constant (hb2m / mbar)).

(** Line 147, for given [u], [v], [dx] and coefficient lists. *)
Definition hamiltonian_form (fl Vl : list expr) (u v : expr) (dx : MeshFunction)
  : option form :=
  option_map sum
    (map_opt (fun k =>
                match getitem fl k, getitem Vl k with
                | Some fk, Some Vk =>
                    Some (times_dx dx (Add (inner (Mul fk (grad u)) (grad v))
                                           (Mul (Mul Vk u) v)) k)
                | _, _ => None
                end) (range 3)).

(** Line 150 *)
Definition mass_form (u v : expr) (dx : MeshFunction) : form :=
  sum (map (fun k => times_dx dx (Mul u v) k) (range 3)).

(** ** Linear algebra objects and the environment *)

(** The two matrix variables of the script. *)
Inductive tensor : Type := TensorH | TensorM.

(** What a [PETScMatrix] object holds: nothing yet, the assembly of a form,
    or a matrix to which a Dirichlet condition has been applied. *)
Inductive PETScMatrix : Type :=
| EmptyMatrix
| Assembled (a : form)
| BCApplied (bc : DirichletBC) (A : PETScMatrix).

(** [r, c, rx, cx]: real and imaginary part of the eigenvalue, real and
    imaginary part of the eigenvector. *)
Definition eigenpair : Type := (Q * Q * list Q * list Q)%type.

Definition eig_r (e : eigenpair) : Q := let '(r, _, _, _) := e in r.
Definition eig_rx (e : eigenpair) : list Q := let '(_, _, rx, _) := e in rx.
Definition eig_cx (e : eigenpair) : list Q := let '(_, _, _, cx) := e in cx.

(** The installation the script runs on.  [slepc_solve A B params] is the
    list of eigenpairs that [solve()] computes for the pencil (A, B) under the
    given solver parameters, or [None] when the solver fails. *)
Record Library : Type := mkLibrary
  { has_linear_algebra_backend : string -> bool;
    has_slepc : bool;
    dim : FunctionSpace -> nat;
    slepc_solve : PETScMatrix -> PETScMatrix -> list (string * string) ->
                  option (list eigenpair);
    str_float : Q -> string }.

(** ** Effects *)

(** Calls that leave the script, in the order they are made. *)
Inductive event : Type :=
| ev_has_linear_algebra_backend (name : string)
| ev_has_slepc
| ev_print (s : string)
| ev_RectangleMesh (m : Mesh)
| ev_mark (sd : SubDomain) (kind : entity_kind) (k : nat)
| ev_FunctionSpace (V : FunctionSpace)
| ev_plot_mesh (m : Mesh)
| ev_DirichletBC (bc : DirichletBC)
| ev_bc_apply (bc : DirichletBC) (t : tensor)
| ev_assemble (a : form) (t : tensor)
| ev_SLEPcEigenSolver (A B : tensor)
| ev_set_parameter (key value : string)
| ev_solve
| ev_get_eigenpair (i : nat)
| ev_plot (u : Function) (title : string)
| ev_interactive.

Inductive error : Type := IndexError | RuntimeError.

Inductive outcome (A : Type) : Type :=
| Returned (a : A)
| Exited
| Raised (e : error)
| OutOfFuel.

Arguments Returned {A} a.
Arguments Exited {A}.
Arguments Raised {A} e.
Arguments OutOfFuel {A}.

(** The matrices bound to [H] and [M] (unbound before line 154) and the log. *)
Record world : Type := mkWorld
  { mat_H : option PETScMatrix; mat_M : option PETScMatrix; log : list event }.

Definition initial_world : world := mkWorld None None [].

Definition Script (A : Type) : Type := world -> outcome A * world.

Definition ret {A : Type} (a : A) : Script A := fun w => (Returned a, w).

Definition bind {A B : Type} (m : Script A) (k : A -> Script B) : Script B :=
  fun w =>
    match m w with
    | (Returned a, w') => k a w'
    | (Exited, w') => (Exited, w')
    | (Raised e, w') => (Raised e, w')
    | (OutOfFuel, w') => (OutOfFuel, w')
    end.

Declare Scope script_scope.
Delimit Scope script_scope with script.
Notation "x <- m ;; k" := (bind m (fun x => k))
  (at level 61, m at next level, right associativity) : script_scope.
Notation "' pat <- m ;; k" := (bind m (fun x => match x with pat => k end))
  (at level 61, pat pattern, m at next level, right associativity) : script_scope.
Notation "m ;; k" := (bind m (fun _ => k))
  (at level 61, right associativity) : script_scope.

Definition emit (ev : event) : Script unit :=
  fun w => (Returned tt, mkWorld (mat_H w) (mat_M w) (log w ++ [ev])).

Definition exit {A : Type} : Script A := fun w => (Exited, w).

Definition raise {A : Type} (e : error) : Script A := fun w => (Raised e, w).

Definition out_of_fuel {A : Type} : Script A := fun w => (OutOfFuel, w).

(** An indexing that may raise [IndexError]. *)
Definition index {A : Type} (o : option A) : Script A :=
  match o with Some a => ret a | None => raise IndexError end.

Definition when (c : bool) (m : Script unit) : Script unit := if c then m else ret tt.

Definition read_tensor (t : tensor) : Script (option PETScMatrix) :=
  fun w => (Returned (match t with TensorH => mat_H w | TensorM => mat_M w end), w).

Definition write_tensor (t : tensor) (A : PETScMatrix) : Script unit :=
  fun w =>
    (Returned tt,
     match t with
     | TensorH => mkWorld (Some A) (mat_M w) (log w)
     | TensorM => mkWorld (mat_H w) (Some A) (log w)
     end).

(** [for x in l: s = body(x, s)] *)
Fixpoint for_each {A S : Type} (l : list A) (body : A -> S -> Script S) (s : S) : Script S :=
  match l with
  | [] => ret s
  | x :: l' => bind (body x s) (for_each l' body)
  end.

(** ** The script *)

Section Program.

Variable lib : Library.

Local Open Scope script_scope.
Local Open Scope string_scope.

(** *** Library calls *)

Definition call_has_linear_algebra_backend (name : string) : Script bool :=
  emit (ev_has_linear_algebra_backend name) ;;
  ret (has_linear_algebra_backend lib name).

Definition call_has_slepc : Script bool :=
  emit ev_has_slepc ;; ret (has_slepc lib).

Definition print (s : string) : Script unit := emit (ev_print s).

Definition call_RectangleMesh (x0 y0 x1 y1 nx ny : Z) : Script Mesh :=
  let m := RectangleMesh x0 y0 x1 y1 nx ny in
  emit (ev_RectangleMesh m) ;; ret m.

Definition call_mark (sd : SubDomain) (mf : MeshFunction) (k : nat)
  : Script MeshFunction :=
  emit (ev_mark sd (mf_kind mf) k) ;; ret (mark sd mf k).

Definition call_FunctionSpace (m : Mesh) (family : string) (degree : Z)
           (constrained_domain : SubDomain) : Script FunctionSpace :=
  let V := mkFunctionSpace m family degree (Some constrained_domain) in
  emit (ev_FunctionSpace V) ;; ret V.

Definition call_DirichletBC (V : FunctionSpace) (value : Q) (sd : SubDomain)
  : Script DirichletBC :=
  let bc := mkDirichletBC V value sd in
  emit (ev_DirichletBC bc) ;; ret bc.

(** [t = PETScMatrix()] *)
Definition new_PETScMatrix (t : tensor) : Script unit := write_tensor t EmptyMatrix.

(** [assemble(a, tensor=t)] *)
Definition assemble (a : form) (t : tensor) : Script unit :=
  emit (ev_assemble a t) ;; write_tensor t (Assembled a).

(** The eigensolver object: the matrices it refers to, its parameters and,
    after [solve()], the eigenpairs it has computed. *)
Record SLEPcEigenSolver : Type := mkSolver
  { es_A : tensor; es_B : tensor;
    es_parameters : list (string * string);
    es_computed : list eigenpair }.

Definition new_SLEPcEigenSolver (A B : tensor) : Script SLEPcEigenSolver :=
  emit (ev_SLEPcEigenSolver A B) ;; ret (mkSolver A B [] []).

(** [es.parameters[key] = value] *)
Definition set_parameter (es : SLEPcEigenSolver) (key value : string)
  : Script SLEPcEigenSolver :=
  emit (ev_set_parameter key value) ;;
  ret (mkSolver (es_A es) (es_B es) (append (es_parameters es) (key, value))
                (es_computed es)).

(** [es.solve()]: reads the two matrices as they are now. *)
Definition solve (es : SLEPcEigenSolver) : Script SLEPcEigenSolver :=
  emit ev_solve ;;
  A <- read_tensor (es_A es) ;;
  B <- read_tensor (es_B es) ;;
  match A, B with
  | Some A, Some B =>
      match slepc_solve lib A B (es_parameters es) with
      | Some eigs => ret (mkSolver (es_A es) (es_B es) (es_parameters es) eigs)
      | None => raise RuntimeError
      end
  | _, _ => raise RuntimeError
  end.

(** [es.get_eigenpair(i)]: an index that was not computed is an error. *)
Definition get_eigenpair (es : SLEPcEigenSolver) (i : nat) : Script eigenpair :=
  emit (ev_get_eigenpair i) ;;
  match nth_error (es_computed es) i with
  | Some e => ret e
  | None => raise RuntimeError
  end.

(** [Function(V)] *)
Definition new_Function (V : FunctionSpace) : Function :=
  mkFunction V (repeat 0%Q (dim lib V)).

(** [u.vector()[:] = x] *)
Definition set_vector (u : Function) (x : list Q) : Function :=
  mkFunction (fun_space u) x.

Definition plot (u : Function) (title : string) : Script unit :=
  emit (ev_plot u title).

(** *** Lines 171-187: collect the eigenpairs below the barrier *)

Record loop_state : Type := mkLoop
  { r : Q; dex : nat; E : list Q; Psi : list Function }.

Definition loop_body (V : FunctionSpace) (es : SLEPcEigenSolver) (s : loop_state)
  : Script loop_state :=
  '(r', c, rx, cx) <- get_eigenpair es (dex s) ;;
  let u := new_Function V in
  let u := set_vector u rx in
  ret (mkLoop r' (dex s + 1) (append (E s) r') (append (Psi s) u)).

Fixpoint while_fuel (fuel : nat) (V : FunctionSpace) (es : SLEPcEigenSolver)
         (s : loop_state) : Script loop_state :=
  if Qltb (r s) vbar then
    match fuel with
    | O => out_of_fuel
    | S fuel' => s' <- loop_body V es s ;; while_fuel fuel' V es s'
    end
  else ret s.

(** The loop, with one more round than the solver has eigenpairs. *)
Definition bound_state_loop (V : FunctionSpace) (es : SLEPcEigenSolver)
  : Script loop_state :=
  while_fuel (S (List.length (es_computed es))) V es (mkLoop 0%Q 0 [] []).

(** *** Lines 190-196: report *)

Definition boundstates (s : loop_state) : Z := len (E s) - 1.

Definition report_one (s : loop_state) (k : nat) : Script unit :=
  e <- index (getitem (E s) k) ;;
  print ("E[" ++ str_int k ++ "]=" ++ str_float lib e) ;;
  u <- index (getitem (Psi s) k) ;;
  plot u ("Psi[" ++ str_int k ++ "]").

Definition report (s : loop_state) : Script unit :=
  for_each (range (boundstates s)) (fun k _ => report_one s k) tt.

(** *** The whole script, as a function of the declared degree [p] *)

Definition finite_well_with (p : Z) : Script unit :=
  (* lines 24-31 *)
  petsc <- call_has_linear_algebra_backend "PETSc" ;;
  when (negb petsc)
       (print "DOLFIN has not been configured with PETSc. Exiting" ;; exit) ;;
  slepc <- call_has_slepc ;;
  when (negb slepc)
       (print "DOLFIN has not been configured with SLEPc. Exiting" ;; exit) ;;
  (* line 57 *)
  Vpot <- index Vpot ;;
  (* line 120 *)
  mesh <- call_RectangleMesh 0 0 dtot dtot nel nel ;;
  (* lines 124-126 *)
  domains <- for_each (range 3)
               (fun k domains =>
                  l <- index (getitem layers k) ;;
                  call_mark (SubLayer l) domains k)
               (CellFunction mesh) ;;
  (* lines 130-132 *)
  boundaries <- call_mark (SubBoundaryPoint left) (FacetFunction mesh) 0 ;;
  boundaries <- call_mark (SubBoundaryPoint right) boundaries 1 ;;
  (* lines 135-137 *)
  V <- call_FunctionSpace mesh "CG" 1 PeriodicBoundary ;;
  let u := TrialFunction V in
  let v := TestFunction V in
  (* line 139 *)
  emit (ev_plot_mesh mesh) ;;
  (* line 141 *)
  bc0 <- call_DirichletBC V 0.0 (SubBoundaryPoint left) ;;
  bc1 <- call_DirichletBC V 0.0 (SubBoundaryPoint right) ;;
  let bcs := [bc0; bc1] in
  (* line 144 *)
  let dx := domains in
  (* lines 147-150 *)
  h <- index (hamiltonian_form f Vpot u v dx) ;;
  let m := mass_form u v dx in
  (* lines 154-157 *)
  new_PETScMatrix TensorH ;;
  new_PETScMatrix TensorM ;;
  assemble h TensorH ;;
  assemble m TensorM ;;
  (* lines 160-166 *)
  eigensolver <- new_SLEPcEigenSolver TensorH TensorM ;;
  eigensolver <- set_parameter eigensolver "spectrum" "smallest magnitude" ;;
  eigensolver <- set_parameter eigensolver "solver" "lapack" ;;
  print "Computing eigenvalue decomposition. This may take a while." ;;
  eigensolver <- solve eigensolver ;;
  (* lines 172-187 *)
  s <- bound_state_loop V eigensolver ;;
  (* lines 190-194 *)
  report s ;;
  (* line 196 *)
  emit ev_interactive.

(** The script as written: [p = 2]. *)
Definition finite_well : Script unit := finite_well_with p.

End Program.

(** * Specification vocabulary *)

(** The world [w] with [evs] added to its log. *)
Definition with_log (w : world) (evs : list event) : world :=
  mkWorld (mat_H w) (mat_M w) (log w ++ evs).

(** What the loop fetches from the eigenpairs not yet seen, when the last
    value of [r] is [r0]: [None] when it runs past the last eigenpair. *)
Fixpoint take_until (r0 : Q) (l : list eigenpair) : option (list eigenpair) :=
  if Qltb r0 vbar then
    match l with
    | [] => None
    | e :: l' => option_map (cons e) (take_until (eig_r e) l')
    end
  else Some [].

(** The function stored for a fetched eigenpair. *)
Definition stored (V : FunctionSpace) (e : eigenpair) : Function :=
  mkFunction V (eig_rx e).

(** The calls [get_eigenpair(d)], ..., [get_eigenpair(d+n-1)]. *)
Definition fetches (d n : nat) : list event := map ev_get_eigenpair (seq d n).

(** The state in which the loop stops after fetching [fs] from state [s]. *)
Definition after_fetching (V : FunctionSpace) (s : loop_state) (fs : list eigenpair)
  : loop_state :=
  mkLoop (last (map eig_r fs) (r s)) (dex s + List.length fs)
         (E s ++ map eig_r fs) (Psi s ++ map (stored V) fs).

(** What the report shows for index [k] of the accumulated lists. *)
Definition report_events (lib : Library) (s : loop_state) (k : nat) : list event :=
  match getitem (E s) k, getitem (Psi s) k with
  | Some e, Some u =>
      [ev_print ("E[" ++ str_int k ++ "]=" ++ str_float lib e);
       ev_plot u ("Psi[" ++ str_int k ++ "]")]
  | _, _ => []
  end.

(** What the report shows for the eigenpair [x] fetched at index [k]. *)
Definition reported (lib : Library) (V : FunctionSpace) (k : nat) (x : eigenpair)
  : list event :=
  [ev_print ("E[" ++ str_int k ++ "]=" ++ str_float lib (eig_r x));
   ev_plot (stored V x) ("Psi[" ++ str_int k ++ "]")].


(** The solver's eigenvalues ascend with the index. *)
Definition ascending (l : list eigenpair) : Prop :=
  forall i j ei ej, (i <= j)%nat ->
    nth_error l i = Some ei -> nth_error l j = Some ej -> (eig_r ei <= eig_r ej)%Q.

(** The part of an eigenpair that the script uses. *)
Definition real_part (e : eigenpair) : Q * list Q := (eig_r e, eig_rx e).

(** ** Layers as intervals *)

Definition layer_start (l : Layer) : Z := fst (ends l).
Definition layer_end (l : Layer) : Z := snd (ends l).

(** The coordinate [x] lies in the layer, read as the interval
    [layer_start, layer_end) of the growth axis. *)
Definition in_layer (x : Q) (l : Layer) : Prop :=
  (inject_Z (layer_start l) <= x)%Q /\ (x < inject_Z (layer_end l))%Q.

(** ** Sample environments *)

(** Lines 120 and 135, as values. *)
Definition the_mesh : Mesh := RectangleMesh 0 0 dtot dtot nel nel.

Definition the_space : FunctionSpace :=
  mkFunctionSpace the_mesh "CG" 1 (Some PeriodicBoundary).

(** ** The values the script builds before the eigensolve *)

(** Lines 124-126: the cell function after the three marks. *)
Definition the_domains : MeshFunction :=
  mark (SubLayer (mkLayer (dbar + dwell, dtot)))
       (mark (SubLayer (mkLayer (dbar, dbar + dwell)))
             (mark (SubLayer (mkLayer (0, dbar))) (CellFunction the_mesh) 0) 1) 2.

(** Lines 136-137. *)
Definition the_u : expr := TrialFunction the_space.
Definition the_v : expr := TestFunction the_space.

(** Line 141. *)
Definition the_bcs : list DirichletBC :=
  [mkDirichletBC the_space 0.0 (SubBoundaryPoint left);
   mkDirichletBC the_space 0.0 (SubBoundaryPoint right)].

(** Lines 147 and 150. *)
Definition the_h : form :=
  match Vpot with
  | Some Vp =>
      match hamiltonian_form f Vp the_u the_v the_domains with
      | Some h => h
      | None => []
      end
  | None => []
  end.

Definition the_m : form := mass_form the_u the_v the_domains.

(** Lines 161-162. *)
Definition solver_parameters : list (string * string) :=
  [("spectrum", "smallest magnitude"); ("solver", "lapack")]%string.

Definition configured_solver : SLEPcEigenSolver :=
  mkSolver TensorH TensorM solver_parameters [].

(** The calls made after the two capability checks and before [solve()]. *)
Definition setup_events : list event :=
  [ev_RectangleMesh the_mesh;
   ev_mark (SubLayer (mkLayer (0, dbar))) Cells 0;
   ev_mark (SubLayer (mkLayer (dbar, dbar + dwell))) Cells 1;
   ev_mark (SubLayer (mkLayer (dbar + dwell, dtot))) Cells 2;
   ev_mark (SubBoundaryPoint left) Facets 0;
   ev_mark (SubBoundaryPoint right) Facets 1;
   ev_FunctionSpace the_space;
   ev_plot_mesh the_mesh;
   ev_DirichletBC (mkDirichletBC the_space 0.0 (SubBoundaryPoint left));
   ev_DirichletBC (mkDirichletBC the_space 0.0 (SubBoundaryPoint right));
   ev_assemble the_h TensorH;
   ev_assemble the_m TensorM;
   ev_SLEPcEigenSolver TensorH TensorM;
   ev_set_parameter "spectrum" "smallest magnitude";
   ev_set_parameter "solver" "lapack";
   ev_print "Computing eigenvalue decomposition. This may take a while."].

Definition capability_checks : list event :=
  [ev_has_linear_algebra_backend "PETSc"; ev_has_slepc].

(** The world in which [solve()] is called. *)
Definition world_before_solve : world :=
  mkWorld (Some (Assembled the_h)) (Some (Assembled the_m))
          (capability_checks ++ setup_events).

(** Lines 166-196. *)
Definition solve_and_report (lib : Library) : Script unit :=
  bind (solve lib configured_solver) (fun es =>
  bind (bound_state_loop lib the_space es) (fun s =>
  bind (report lib s) (fun _ => emit ev_interactive))).

(** A call that asks for a capability of the installation. *)
Definition is_capability_check (ev : event) : bool :=
  match ev with
  | ev_has_linear_algebra_backend _ | ev_has_slepc => true
  | _ => false
  end.

(** A call that writes into one of the two matrices. *)
Definition is_matrix_write (ev : event) : bool :=
  match ev with
  | ev_assemble _ _ | ev_bc_apply _ _ => true
  | _ => false
  end.

(** The calls that the script makes from [solve()] on. *)
Definition is_late (ev : event) : bool :=
  match ev with
  | ev_solve | ev_get_eigenpair _ | ev_print _ | ev_plot _ _ | ev_interactive => true
  | _ => false
  end.

(** The library [lib] with another eigensolver. *)
Definition with_solver (lib : Library)
           (solver : PETScMatrix -> PETScMatrix -> list (string * string) ->
                     option (list eigenpair)) : Library :=
  mkLibrary (has_linear_algebra_backend lib) (has_slepc lib) (dim lib) solver
            (str_float lib).

(** A solver answer with two eigenvalues below the barrier. *)
Definition sample_eigenpairs : list eigenpair :=
  [(0.05, 0, [1; 2], []); (0.2, 0, [3; 4], [7]);
   (0.3, 0, [5; 6], []); (0.4, 0, [7; 8], [])]%Q.

Definition sample_library : Library :=
  mkLibrary (fun _ => true) true (fun _ => 2%nat)
            (fun _ _ _ => Some sample_eigenpairs) (fun _ => "<float>"%string).

Definition sample_solver : SLEPcEigenSolver :=
  mkSolver TensorH TensorM
           [("spectrum", "smallest magnitude"); ("solver", "lapack")]%string
           sample_eigenpairs.



(** The sample answer with other imaginary parts. *)
Definition sample_eigenpairs_complex : list eigenpair :=
  [(0.05, 9, [1; 2], [4]); (0.2, 0.5, [3; 4], []);
   (0.3, 1, [5; 6], [1; 1]); (0.4, 2, [7; 8], [3])]%Q.

Definition sample_solver_complex : SLEPcEigenSolver :=
  mkSolver TensorH TensorM
           [("spectrum", "smallest magnitude"); ("solver", "lapack")]%string
           sample_eigenpairs_complex.

(** The state of the loop when it stops after fetching [fs] from the start. *)
Definition collected (V : FunctionSpace) (fs : list eigenpair) : loop_state :=
  mkLoop (last (map eig_r fs) 0%Q) (List.length fs)
         (map eig_r fs) (map (stored V) fs).

(** The calls from [solve()] on, for a given answer of the solver. *)
Definition events_from_solve (lib : Library) (answer : option (list eigenpair))
  : list event :=
  ev_solve ::
  match answer with
  | None => []
  | Some eigs =>
      match take_until 0 eigs with
      | None => fetches 0 (S (List.length eigs))
      | Some fs =>
          fetches 0 (List.length fs) ++
          flat_map (report_events lib (collected the_space fs))
                   (range (boundstates (collected the_space fs))) ++
          [ev_interactive]
      end
  end.

Definition outcome_from_solve (answer : option (list eigenpair)) : outcome unit :=
  match answer with
  | None => Raised RuntimeError
  | Some eigs =>
      match take_until 0 eigs with
      | None => Raised RuntimeError
      | Some _ => Returned tt
      end
  end.

(** What the eigensolver answers for the two matrices of the script. *)
Definition solver_answer (lib : Library) : option (list eigenpair) :=
  slepc_solve lib (Assembled the_h) (Assembled the_m) solver_parameters.

(** An installation without PETSc, and one with PETSc but without SLEPc. *)
Definition library_without_petsc : Library :=
  mkLibrary (fun _ => false) true (fun _ => 2%nat)
            (fun _ _ _ => Some sample_eigenpairs) (fun _ => "<float>"%string).

Definition library_without_slepc : Library :=
  mkLibrary (fun _ => true) false (fun _ => 2%nat)
            (fun _ _ _ => Some sample_eigenpairs) (fun _ => "<float>"%string).

(** ** Meaning of forms *)

Section Denotation.

(** Points of the mesh, the integral of a scalar field over the cells that a
    mesh function tags [k], and the trial and test functions with their
    gradients. *)
Variable point : Type.
Variable integrate : MeshFunction -> nat -> (point -> Q) -> Q.
Variable trial test : point -> Q.
Variable grad_trial grad_test : point -> Q * Q.

Inductive value : Type :=
| Scalar (q : Q)
| Vector (a : Q * Q).

Definition dot (a b : Q * Q) : Q := (fst a * fst b + snd a * snd b)%Q.

(** Value of an expression at a point; [None] when the shapes do not fit. *)
Fixpoint eval (e : expr) (x : point) : option value :=
  match e with
  | Constant c => Some (Scalar c)
  | TrialFunction _ => Some (Scalar (trial x))
  | TestFunction _ => Some (Scalar (test x))
  | grad e' =>
      match e' with
      | TrialFunction _ => Some (Vector (grad_trial x))
      | TestFunction _ => Some (Vector (grad_test x))
      | _ => None
      end
  | inner a b =>
      match eval a x, eval b x with
      | Some (Scalar p), Some (Scalar q) => Some (Scalar (p * q)%Q)
      | Some (Vector p), Some (Vector q) => Some (Scalar (dot p q))
      | _, _ => None
      end
  | Mul a b =>
      match eval a x, eval b x with
      | Some (Scalar p), Some (Scalar q) => Some (Scalar (p * q)%Q)
      | Some (Scalar p), Some (Vector q) => Some (Vector (p * fst q, p * snd q)%Q)
      | Some (Vector p), Some (Scalar q) => Some (Vector (fst p * q, snd p * q)%Q)
      | _, _ => None
      end
  | Add a b =>
      match eval a x, eval b x with
      | Some (Scalar p), Some (Scalar q) => Some (Scalar (p + q)%Q)
      | Some (Vector p), Some (Vector q) =>
          Some (Vector (fst p + fst q, snd p + snd q)%Q)
      | _, _ => None
      end
  end.

(** The scalar field of an integrand. *)
Definition scalar_field (e : expr) (x : point) : Q :=
  match eval e x with
  | Some (Scalar q) => q
  | _ => 0%Q
  end.

(** An integrand has a scalar value everywhere. *)
Definition is_scalar (e : expr) : Prop :=
  forall x, exists q, eval e x = Some (Scalar q).

(** Value of a form on the trial and test functions. *)
Definition form_value (a : form) : Q :=
  fold_right
    (fun i acc =>
       (integrate (int_domains i) (int_subdomain i) (scalar_field (integrand i))
        + acc)%Q)
    0%Q a.

(** The specification's wording: per layer a stiffness factor and a
    potential, those of the barrier for the two outer layers and those of the
    well for the middle one. *)
Definition layer_coefficients (k : nat) : Q * Q :=
  match k with
  | 1%nat => ((hb2m / mwell)%Q, vwell)
  | _ => ((hb2m / mbar)%Q, vbar)
  end.

Definition hamiltonian_spec (dx : MeshFunction) : Q :=
  fold_right
    (fun k acc =>
       (integrate dx k
          (fun x => fst (layer_coefficients k) * dot (grad_trial x) (grad_test x)
                    + snd (layer_coefficients k) * trial x * test x)
        + acc)%Q)
    0%Q [0; 1; 2]%nat.

Definition mass_spec (dx : MeshFunction) : Q :=
  fold_right (fun k acc => (integrate dx k (fun x => trial x * test x) + acc)%Q)
             0%Q [0; 1; 2]%nat.

End Denotation.


(** ** Claims as the specification words them *)


(** ** The periodic boundary (lines 89-98) *)

(** [l[k] = v] for [k >= 0]: [None] stands for [IndexError]. *)
Definition setitem {A : Type} (l : list A) (k : nat) (v : A) : option (list A) :=
  if (k <? List.length l)%nat
  then Some (firstn k l ++ v :: skipn (S k) l)
  else None.

Section Periodic.

(** DOLFIN's tolerance constant. *)
Variable DOLFIN_EPS : Q.

(** Lines 92-93: the target of the identification. *)
Definition PeriodicBoundary_inside (x : list Q) (on_boundary : bool) : option bool :=
  option_map (fun x1 => Qltb x1 DOLFIN_EPS && Qltb (- DOLFIN_EPS) x1) (getitem x 1).

(** Lines 96-98: [y[1] = x[1] - 1.0] and then [y[0] = x[0]]; the result is
    the array [y] after the two assignments. *)
Definition PeriodicBoundary_map (x y : list Q) : option (list Q) :=
  match getitem x 1 with
  | None => None
  | Some x1 =>
      match setitem y 1 (x1 - 1.0)%Q with
      | None => None
      | Some y' =>
          match getitem x 0 with
          | None => None
          | Some x0 => setitem y' 0 x0
          end
      end
  end.

End Periodic.

(** ** What a run shows *)

(** The lines printed, in order. *)
Definition printed (evs : list event) : list string :=
  flat_map (fun ev => match ev with ev_print s => [s] | _ => [] end) evs.

(** The titles of the functions plotted, in order. *)
Definition plot_titles (evs : list event) : list string :=
  flat_map (fun ev => match ev with ev_plot _ t => [t] | _ => [] end) evs.

(** The eigenvalue of an eigenpair is below the barrier. *)
Definition below_barrier (e : eigenpair) : bool := Qltb (eig_r e) vbar.

(** An installation whose eigensolver fails, and one whose eigenvalues all
    lie below the barrier. *)
Definition library_failing_solver : Library :=
  mkLibrary (fun _ => true) true (fun _ => 2%nat)
            (fun _ _ _ => None) (fun _ => "<float>"%string).

Definition library_all_bound : Library :=
  mkLibrary (fun _ => true) true (fun _ => 2%nat)
            (fun _ _ _ => Some (firstn 2 sample_eigenpairs))
            (fun _ => "<float>"%string).

(** A call that creates a function space. *)
Definition is_function_space_call (ev : event) : bool :=
  match ev with
  | ev_FunctionSpace _ => true
  | _ => false
  end.

(** The function spaces that the arguments of an expression live on. *)
Fixpoint expr_spaces (e : expr) : list FunctionSpace :=
  match e with
  | Constant _ => []
  | TrialFunction V => [V]
  | TestFunction V => [V]
  | grad a => expr_spaces a
  | inner a b => expr_spaces a ++ expr_spaces b
  | Mul a b => expr_spaces a ++ expr_spaces b
  | Add a b => expr_spaces a ++ expr_spaces b
  end.

Definition form_spaces (a : form) : list FunctionSpace :=
  flat_map (fun i => expr_spaces (integrand i)) a.

(** * Properties *)

(** ** Comparison of floats *)

Lemma Qltb_true (a b : Q) : Qltb a b = true <-> (a < b)%Q.
Proof.
  unfold Qltb. rewrite Qlt_alt.
  destruct (a ?= b)%Q; split; intro H; try reflexivity; discriminate.
Qed.

Lemma Qltb_false (a b : Q) : Qltb a b = false <-> (b <= a)%Q.
Proof.
  split; intro H.
  - apply Qnot_lt_le. intro L. apply Qltb_true in L. congruence.
  - destruct (Qltb a b) eqn:L; [|reflexivity].
    apply Qltb_true in L. exfalso. apply (Qlt_not_le _ _ L H).
Qed.

Lemma zero_below_vbar : Qltb 0 vbar = true.
Proof. reflexivity. Qed.

(** ** Worlds *)

Lemma with_log_nil (w : world) : with_log w [] = w.
Proof. destruct w; unfold with_log; simpl. now rewrite app_nil_r. Qed.

Lemma with_log_app (w : world) (a b : list event) :
  with_log (with_log w a) b = with_log w (a ++ b).
Proof. unfold with_log; simpl. now rewrite app_assoc. Qed.

(** ** The collecting loop as a function on the list of eigenpairs *)

Lemma skipn_nth_error {A : Type} (l : list A) (d : nat) (a : A) :
  nth_error l d = Some a -> skipn d l = a :: skipn (S d) l.
Proof.
  revert l; induction d as [|d IH]; intros [|x l] H; simpl in *; try discriminate.
  - now inversion H.
  - now apply IH.
Qed.

Lemma take_until_prefix (l : list eigenpair) :
  forall r0 fs, take_until r0 l = Some fs -> exists rest, l = fs ++ rest.
Proof.
  induction l as [|e l IH]; intros r0 fs; simpl.
  - destruct (Qltb r0 vbar); [discriminate|].
    intros H; inversion H; now exists [].
  - destruct (Qltb r0 vbar).
    + destruct (take_until (eig_r e) l) as [fs'|] eqn:T; simpl; [|discriminate].
      intros H; inversion H; subst.
      destruct (IH _ _ T) as [rest ->]. now exists rest.
    + intros H; inversion H; now exists (e :: l).
Qed.

Lemma take_until_nonempty (l : list eigenpair) (r0 : Q) (fs : list eigenpair) :
  Qltb r0 vbar = true -> take_until r0 l = Some fs -> fs <> [].
Proof.
  intros L. destruct l as [|e l]; simpl; rewrite L; [discriminate|].
  destruct (take_until (eig_r e) l); simpl; [|discriminate].
  intros H; inversion H; discriminate.
Qed.

Lemma last_default {A : Type} (l : list A) (d d' : A) :
  l <> [] -> last l d = last l d'.
Proof.
  induction l as [|a l IH]; intros N; [congruence|].
  destruct l as [|b l]; [reflexivity|].
  change (last (b :: l) d = last (b :: l) d'). apply IH. discriminate.
Qed.

(** All fetched eigenvalues but the last are below the barrier, and the last
    value of [r] is not. *)
Lemma take_until_below (l : list eigenpair) :
  forall r0 fs, take_until r0 l = Some fs ->
    Forall (fun e => (eig_r e < vbar)%Q) (removelast fs) /\
    Qltb (last (map eig_r fs) r0) vbar = false.
Proof.
  induction l as [|e l IH]; intros r0 fs; simpl.
  - destruct (Qltb r0 vbar) eqn:L; [discriminate|].
    intros H; inversion H; subst; simpl. split; [constructor | exact L].
  - destruct (Qltb r0 vbar) eqn:L.
    + destruct (take_until (eig_r e) l) as [fs'|] eqn:T; simpl; [|discriminate].
      intros H; inversion H; subst. destruct (IH _ _ T) as [B Lst].
      destruct fs' as [|e' fs'].
      * split; [constructor | exact Lst].
      * split.
        -- change (Forall (fun x => (eig_r x < vbar)%Q) (e :: removelast (e' :: fs'))).
           constructor; [|exact B].
           apply Qltb_true.
           destruct l as [|x l']; simpl in T;
             destruct (Qltb (eig_r e) vbar); try discriminate; reflexivity.
        -- change (Qltb (last (map eig_r (e' :: fs')) r0) vbar = false).
           rewrite (last_default _ r0 (eig_r e)); [exact Lst | discriminate].
    + intros H; inversion H; subst; simpl. split; [constructor | exact L].
Qed.

(** When the eigenvalues stay below the barrier up to some eigenpair that
    reaches it, the loop fetches exactly up to and including that one. *)
Lemma take_until_first (pre post : list eigenpair) (e : eigenpair) :
  Forall (fun x => (eig_r x < vbar)%Q) pre -> (vbar <= eig_r e)%Q ->
  forall r0, (r0 < vbar)%Q ->
  take_until r0 (pre ++ e :: post) = Some (pre ++ [e]).
Proof.
  intros Hpre He. induction Hpre as [|x pre Hx _ IH]; intros r0 Hr0; simpl.
  - apply Qltb_true in Hr0. rewrite Hr0.
    destruct post; simpl; apply Qltb_false in He; now rewrite He.
  - apply Qltb_true in Hr0. rewrite Hr0. now rewrite (IH _ Hx).
Qed.

(** ** The loop of the script computes [take_until] *)

Section Loop.

Variable lib : Library.
Variable V : FunctionSpace.
Variable es : SLEPcEigenSolver.

Lemma after_fetching_nil (s : loop_state) : after_fetching V s [] = s.
Proof.
  destruct s; unfold after_fetching; simpl.
  now rewrite Nat.add_0_r, !app_nil_r.
Qed.

Lemma loop_body_some (s : loop_state) (w : world) (e : eigenpair) :
  nth_error (es_computed es) (dex s) = Some e ->
  loop_body lib V es s w =
  (Returned (mkLoop (eig_r e) (dex s + 1) (append (E s) (eig_r e))
                    (append (Psi s) (stored V e))),
   with_log w [ev_get_eigenpair (dex s)]).
Proof.
  intros H. unfold loop_body, get_eigenpair, bind, emit. simpl. rewrite H.
  destruct e as [[[r' c] rx] cx]. reflexivity.
Qed.

Lemma loop_body_none (s : loop_state) (w : world) :
  nth_error (es_computed es) (dex s) = None ->
  loop_body lib V es s w =
  (Raised RuntimeError, with_log w [ev_get_eigenpair (dex s)]).
Proof.
  intros H. unfold loop_body, get_eigenpair, bind, emit. simpl. now rewrite H.
Qed.

Lemma while_fuel_eq (fuel : nat) :
  forall (s : loop_state) (w : world),
    (List.length (es_computed es) - dex s < fuel)%nat ->
    while_fuel lib fuel V es s w =
    match take_until (r s) (skipn (dex s) (es_computed es)) with
    | Some fs =>
        (Returned (after_fetching V s fs), with_log w (fetches (dex s) (List.length fs)))
    | None =>
        (Raised RuntimeError,
         with_log w (fetches (dex s) (S (List.length (es_computed es) - dex s))))
    end.
Proof.
  induction fuel as [|fuel IH]; intros s w Hf; [lia|].
  simpl while_fuel.
  destruct (skipn (dex s) (es_computed es)) as [|e rest] eqn:Sk; simpl take_until;
    destruct (Qltb (r s) vbar) eqn:L.
  - (* nothing left to fetch *)
    assert (N : nth_error (es_computed es) (dex s) = None).
    { apply nth_error_None.
      assert (Hl := f_equal (@List.length _) Sk). rewrite length_skipn in Hl.
      simpl in Hl. lia. }
    unfold bind. rewrite (loop_body_none _ _ N).
    apply nth_error_None in N.
    replace (List.length (es_computed es) - dex s)%nat with 0%nat by lia.
    reflexivity.
  - unfold ret. now rewrite after_fetching_nil, with_log_nil.
  - assert (N : nth_error (es_computed es) (dex s) = Some e).
    { rewrite <- (firstn_skipn (dex s) (es_computed es)) at 1.
      assert (Hl : (dex s < List.length (es_computed es))%nat).
      { assert (Hl := f_equal (@List.length _) Sk). rewrite length_skipn in Hl.
        simpl in Hl. lia. }
      rewrite nth_error_app2; rewrite length_firstn, Nat.min_l by lia; [|lia].
      rewrite Nat.sub_diag, Sk. reflexivity. }
    unfold bind at 1. rewrite (loop_body_some _ _ _ N).
    assert (Hl : (dex s < List.length (es_computed es))%nat)
      by (apply nth_error_Some; congruence).
    rewrite IH by (simpl; lia). simpl dex. simpl r.
    assert (Sk' : skipn (S (dex s)) (es_computed es) = rest).
    { pose proof (skipn_nth_error _ _ _ N) as X. rewrite Sk in X. congruence. }
    replace (dex s + 1)%nat with (S (dex s)) by lia.
    rewrite Sk'.
    destruct (take_until (eig_r e) rest) as [fs|];
      simpl option_map; cbv iota; rewrite with_log_app.
    + f_equal.
      * f_equal. unfold after_fetching, append; simpl.
        f_equal.
        -- destruct fs as [|x fs]; [reflexivity|].
           change (last (map eig_r (x :: fs)) (eig_r e) =
                   last (map eig_r (x :: fs)) (r s)).
           apply last_default. discriminate.
        -- lia.
        -- now rewrite <- app_assoc.
        -- now rewrite <- app_assoc.
    + f_equal. unfold fetches.
      replace (S (List.length (es_computed es) - dex s))
        with (S (S (List.length (es_computed es) - S (dex s)))) by lia.
      reflexivity.
  - unfold ret. now rewrite after_fetching_nil, with_log_nil.
Qed.

(** The loop of the script, from its initial state. *)
Lemma bound_state_loop_eq (w : world) :
  bound_state_loop lib V es w =
  match take_until 0 (es_computed es) with
  | Some fs =>
      (Returned (mkLoop (last (map eig_r fs) 0%Q) (List.length fs)
                        (map eig_r fs) (map (stored V) fs)),
       with_log w (fetches 0 (List.length fs)))
  | None =>
      (Raised RuntimeError,
       with_log w (fetches 0 (S (List.length (es_computed es)))))
  end.
Proof.
  unfold bound_state_loop. rewrite while_fuel_eq by (simpl; lia).
  simpl. rewrite Nat.sub_0_r. reflexivity.
Qed.

End Loop.

(** ** The report *)

Section Report.

Variable lib : Library.

Local Open Scope string_scope.

Lemma report_one_eq (s : loop_state) (k : nat) (w : world) :
  (k < List.length (E s))%nat -> (k < List.length (Psi s))%nat ->
  report_one lib s k w = (Returned tt, with_log w (report_events lib s k)).
Proof.
  intros HE HP. unfold report_one, report_events, getitem.
  destruct (nth_error (E s) k) as [e|] eqn:Ek;
    [|apply nth_error_None in Ek; lia].
  destruct (nth_error (Psi s) k) as [u|] eqn:Pk;
    [|apply nth_error_None in Pk; lia].
  unfold bind, index, ret, print, plot, emit, with_log; simpl.
  now rewrite <- app_assoc.
Qed.

Lemma for_each_report (s : loop_state) (ks : list nat) :
  forall w : world,
    (forall k, In k ks -> (k < List.length (E s))%nat /\ (k < List.length (Psi s))%nat) ->
    for_each ks (fun k _ => report_one lib s k) tt w =
    (Returned tt, with_log w (flat_map (report_events lib s) ks)).
Proof.
  induction ks as [|k ks IH]; intros w H; simpl.
  - unfold ret. now rewrite with_log_nil.
  - destruct (H k (or_introl eq_refl)) as [HE HP].
    unfold bind. rewrite report_one_eq by assumption.
    rewrite IH by (intros k' Hk'; apply H; now right).
    now rewrite with_log_app.
Qed.

Lemma in_range (n : Z) (k : nat) : In k (range n) <-> (Z.of_nat k < n)%Z.
Proof. unfold range. rewrite in_seq. lia. Qed.

Lemma report_eq (s : loop_state) (w : world) :
  List.length (E s) = List.length (Psi s) ->
  report lib s w =
  (Returned tt, with_log w (flat_map (report_events lib s) (range (boundstates s)))).
Proof.
  intros HL. unfold report. apply for_each_report.
  intros k Hk. apply in_range in Hk. unfold boundstates, len in Hk. lia.
Qed.

End Report.

Lemma flat_map_ext_on {A B : Type} (g h : A -> list B) (l : list A) :
  (forall a, In a l -> g a = h a) -> flat_map g l = flat_map h l.
Proof.
  induction l as [|a l IH]; intros H; simpl; [reflexivity|].
  rewrite (H a (or_introl eq_refl)). f_equal. apply IH.
  intros b Hb. apply H. now right.
Qed.

(** ** Claims about the bound-state filter *)

Lemma nth_error_map_some {A B : Type} (g : A -> B) (l : list A) (k : nat) (a : A) :
  nth_error l k = Some a -> nth_error (map g l) k = Some (g a).
Proof. intros H. rewrite nth_error_map, H. reflexivity. Qed.

Lemma report_events_fetched (lib : Library) (V : FunctionSpace)
      (r0 : Q) (d : nat) (fs : list eigenpair) (k : nat) (x : eigenpair) :
  nth_error fs k = Some x ->
  report_events lib (mkLoop r0 d (map eig_r fs) (map (stored V) fs)) k =
  reported lib V k x.
Proof.
  intros H. unfold report_events, getitem; simpl.
  rewrite (nth_error_map_some eig_r _ _ _ H).
  rewrite (nth_error_map_some (stored V) _ _ _ H). reflexivity.
Qed.

(** C1.  When the eigenpairs [pre] all lie below the barrier and the next
    one, [e], does not, the loop starts at index 0, fetches the eigenpairs of
    [pre] and then [e], in order, appending each eigenvalue to [E] and each
    eigenvector, as a function over [V], to [Psi]; it stops after [e].  The
    count [boundstates] is [len(E) - 1], the size of [pre], and the report
    prints and plots exactly the entries of [pre], leaving [e] out. *)
Theorem bound_state_filter_stops_at_first_unbound
        (lib : Library) (V : FunctionSpace) (es : SLEPcEigenSolver)
        (pre post : list eigenpair) (e : eigenpair) (w : world) :
  es_computed es = pre ++ e :: post ->
  Forall (fun x => (eig_r x < vbar)%Q) pre ->
  (vbar <= eig_r e)%Q ->
  let n := List.length pre in
  let s := mkLoop (eig_r e) (S n) (map eig_r pre ++ [eig_r e])
                  (map (stored V) pre ++ [stored V e]) in
  bound_state_loop lib V es w = (Returned s, with_log w (fetches 0 (S n))) /\
  boundstates s = len (E s) - 1 /\
  boundstates s = Z.of_nat n /\
  forall w' : world,
    report lib s w' =
    (Returned tt,
     with_log w' (flat_map (fun k => reported lib V k (nth k pre e)) (seq 0 n))).
Proof.
  intros Hes Hpre He n s.
  assert (Hs : s = mkLoop (last (map eig_r (pre ++ [e])) 0%Q)
                          (List.length (pre ++ [e]))
                          (map eig_r (pre ++ [e])) (map (stored V) (pre ++ [e]))).
  { subst s n. rewrite !map_app, length_app. simpl map. rewrite last_last.
    simpl. f_equal. lia. }
  assert (Hb : boundstates s = Z.of_nat n).
  { subst s n. unfold boundstates, len. simpl. rewrite length_app, length_map.
    simpl. lia. }
  split; [|split; [reflexivity|split; [exact Hb|]]].
  - rewrite bound_state_loop_eq, Hes.
    rewrite (take_until_first pre post e Hpre He 0%Q) by reflexivity.
    rewrite <- Hs. f_equal. f_equal. unfold n. rewrite length_app. simpl.
    f_equal. lia.
  - intros w'. rewrite report_eq.
    + rewrite Hb. unfold range. rewrite Nat2Z.id. f_equal. f_equal.
      apply flat_map_ext_on. intros k Hk. apply in_seq in Hk.
      rewrite Hs. apply report_events_fetched.
      rewrite nth_error_app1 by (fold n; lia).
      apply nth_error_nth'. fold n. lia.
    + subst s. simpl. now rewrite !length_app, !length_map.
Qed.

Lemma bound_state_filter_stops_at_first_unbound_witness :
  es_computed sample_solver =
    firstn 2 sample_eigenpairs ++ (0.3, 0, [5; 6], [])%Q :: skipn 3 sample_eigenpairs /\
  Forall (fun x => (eig_r x < vbar)%Q) (firstn 2 sample_eigenpairs) /\
  (vbar <= 0.3)%Q /\
  fst (bound_state_loop sample_library the_space sample_solver initial_world) =
    Returned (mkLoop 0.3 3 [0.05; 0.2; 0.3]%Q
                     [mkFunction the_space [1; 2]%Q; mkFunction the_space [3; 4]%Q;
                      mkFunction the_space [5; 6]%Q]).
Proof.
  assert (H1 : es_computed sample_solver =
               firstn 2 sample_eigenpairs ++
               (0.3, 0, [5; 6], [])%Q :: skipn 3 sample_eigenpairs) by reflexivity.
  assert (H2 : Forall (fun x => (eig_r x < vbar)%Q) (firstn 2 sample_eigenpairs)).
  { repeat constructor. }
  assert (H3 : (vbar <= eig_r (0.3, 0, [5; 6], [])%Q)%Q).
  { unfold Qle; simpl; lia. }
  split; [exact H1 | split; [exact H2 | split; [exact H3 |]]].
  destruct (bound_state_filter_stops_at_first_unbound
              sample_library the_space sample_solver _ _ _ initial_world H1 H2 H3)
    as [Hrun _].
  rewrite Hrun. reflexivity.
Defined.

(** ** What a finished loop has collected *)

Lemma take_until_none (l : list eigenpair) :
  forall r0, take_until r0 l = None -> Forall (fun x => (eig_r x < vbar)%Q) l.
Proof.
  induction l as [|e l IH]; intros r0; simpl; [constructor|].
  destruct (Qltb r0 vbar); [|discriminate].
  destruct (take_until (eig_r e) l) as [fs|] eqn:T; simpl; [discriminate|].
  intros _. constructor; [|exact (IH _ T)].
  apply Qltb_true.
  destruct l as [|x l']; simpl in T; destruct (Qltb (eig_r e) vbar);
    try discriminate; reflexivity.
Qed.

Lemma bound_state_loop_returned (lib : Library) (V : FunctionSpace)
      (es : SLEPcEigenSolver) (w w' : world) (s : loop_state) :
  bound_state_loop lib V es w = (Returned s, w') ->
  exists fs rest,
    es_computed es = fs ++ rest /\ take_until 0 (es_computed es) = Some fs /\
    fs <> [] /\
    s = mkLoop (last (map eig_r fs) 0%Q) (List.length fs)
               (map eig_r fs) (map (stored V) fs) /\
    w' = with_log w (fetches 0 (List.length fs)).
Proof.
  rewrite bound_state_loop_eq.
  destruct (take_until 0 (es_computed es)) as [fs|] eqn:T; [|discriminate].
  intros H; inversion H; subst; clear H.
  destruct (take_until_prefix _ _ _ T) as [rest Hrest].
  exists fs, rest. repeat split; try assumption.
  exact (take_until_nonempty _ _ _ zero_below_vbar T).
Qed.

Lemma Forall_removelast_nth {A : Type} (P : A -> Prop) (l : list A) (k : nat) (a : A) :
  Forall P (removelast l) -> (S k < List.length l)%nat ->
  nth_error l k = Some a -> P a.
Proof.
  intros HF Hk Hn.
  destruct l as [|x l]; [simpl in Hk; lia|].
  assert (Hne : x :: l <> []) by discriminate.
  rewrite (app_removelast_last x Hne) in Hn, Hk.
  remember (removelast (x :: l)) as rl eqn:Hrl. clear Hrl.
  rewrite length_app in Hk. simpl in Hk.
  rewrite nth_error_app1 in Hn by lia.
  rewrite Forall_forall in HF. apply HF. eapply nth_error_In; eassumption.
Qed.

(** Entry [k] of [E] and of [Psi] comes from the solver's eigenpair [k]. *)
Lemma collected_entry (lib : Library) (V : FunctionSpace)
      (es : SLEPcEigenSolver) (w w' : world) (s : loop_state) (k : nat) :
  bound_state_loop lib V es w = (Returned s, w') ->
  (k < dex s)%nat ->
  exists x, nth_error (es_computed es) k = Some x /\
            getitem (E s) k = Some (eig_r x) /\
            getitem (Psi s) k = Some (stored V x) /\
            (Z.of_nat k < boundstates s -> (eig_r x < vbar)%Q).
Proof.
  intros Hrun Hk.
  destruct (bound_state_loop_returned _ _ _ _ _ _ Hrun)
    as (fs & rest & Hes & T & Hne & -> & ->).
  simpl in Hk.
  destruct (nth_error fs k) as [x|] eqn:Hx;
    [|apply nth_error_None in Hx; lia].
  exists x. unfold getitem; simpl. repeat split.
  - rewrite Hes, nth_error_app1 by lia. exact Hx.
  - exact (nth_error_map_some eig_r _ _ _ Hx).
  - exact (nth_error_map_some (stored V) _ _ _ Hx).
  - unfold boundstates, len; simpl. rewrite length_map. intros Hb.
    destruct (take_until_below _ _ _ T) as [HB _].
    apply (Forall_removelast_nth _ fs k x HB); [lia | exact Hx].
Qed.


(** C9.  The loop either stops, and then it has fetched at least one
    eigenpair, [E] has one entry per fetch, and the count [len(E) - 1] is
    non-negative and strictly below the number [dex] of eigenpairs fetched,
    itself at most the number the solver computed; or it runs past the last
    computed eigenpair, every eigenvalue being below the barrier, and the
    solver raises.  It never exits and never runs forever. *)
Theorem boundstates_nonnegative_and_below_fetched
        (lib : Library) (V : FunctionSpace) (es : SLEPcEigenSolver) (w : world) :
  match bound_state_loop lib V es w with
  | (Returned s, w') =>
      (1 <= List.length (E s))%nat /\
      boundstates s = len (E s) - 1 /\
      0 <= boundstates s /\
      boundstates s < Z.of_nat (dex s) /\
      dex s = List.length (E s) /\
      log w' = log w ++ fetches 0 (dex s) /\
      (dex s <= List.length (es_computed es))%nat
  | (Raised err, _) =>
      err = RuntimeError /\
      Forall (fun x => (eig_r x < vbar)%Q) (es_computed es)
  | (Exited, _) => False
  | (OutOfFuel, _) => False
  end.
Proof.
  destruct (bound_state_loop lib V es w) as [[s| |err|] w'] eqn:Hrun.
  - destruct (bound_state_loop_returned _ _ _ _ _ _ Hrun)
      as (fs & rest & Hes & T & Hne & -> & ->).
    assert (Hpos : (0 < List.length fs)%nat)
      by (destruct fs; [congruence | simpl; lia]).
    unfold boundstates, len, with_log. cbn [E dex log].
    rewrite length_map, Hes, length_app.
    repeat split; lia.
  - rewrite bound_state_loop_eq in Hrun.
    destruct (take_until 0 (es_computed es)); discriminate.
  - rewrite bound_state_loop_eq in Hrun.
    destruct (take_until 0 (es_computed es)) eqn:T; [discriminate|].
    inversion Hrun; subst. split; [reflexivity|].
    exact (take_until_none _ _ T).
  - rewrite bound_state_loop_eq in Hrun.
    destruct (take_until 0 (es_computed es)); discriminate.
Qed.

(** ** Reported energies *)



Lemma sample_eigenpairs_ascending : ascending sample_eigenpairs.
Proof.
  intros i j ei ej Hij Hi Hj.
  destruct i as [|[|[|[|[|i]]]]]; destruct j as [|[|[|[|[|j]]]]]; simpl in Hi, Hj;
    try lia; try discriminate;
    inversion Hi; inversion Hj; subst; unfold Qle; simpl; lia.
Qed.


Lemma sample_loop_run :
  bound_state_loop sample_library the_space sample_solver initial_world =
  (Returned (mkLoop 0.3 3 [0.05; 0.2; 0.3]%Q
                    [mkFunction the_space [1; 2]%Q; mkFunction the_space [3; 4]%Q;
                     mkFunction the_space [5; 6]%Q]),
   with_log initial_world (fetches 0 3)).
Proof. reflexivity. Qed.


(** ** Imaginary parts *)

Lemma eig_r_real_part (e : eigenpair) : eig_r e = fst (real_part e).
Proof. reflexivity. Qed.

Lemma stored_real_part (V : FunctionSpace) (e : eigenpair) :
  stored V e = mkFunction V (snd (real_part e)).
Proof. reflexivity. Qed.

Lemma map_through_real_part {B : Type} (g : Q * list Q -> B) (l l' : list eigenpair) :
  map real_part l = map real_part l' ->
  map (fun e => g (real_part e)) l = map (fun e => g (real_part e)) l'.
Proof.
  intros H. rewrite <- (map_map real_part g l), <- (map_map real_part g l').
  now rewrite H.
Qed.

Lemma take_until_real_part (l : list eigenpair) :
  forall l' r0, map real_part l = map real_part l' ->
    option_map (map real_part) (take_until r0 l) =
    option_map (map real_part) (take_until r0 l').
Proof.
  induction l as [|e l IH]; intros [|e' l'] r0 H; simpl in H; try discriminate.
  - reflexivity.
  - assert (He : real_part e = real_part e') by congruence.
    assert (Hl : map real_part l = map real_part l') by congruence.
    clear H. simpl.
    destruct (Qltb r0 vbar); [|reflexivity].
    assert (Hr : eig_r e = eig_r e') by (rewrite !eig_r_real_part; now rewrite He).
    specialize (IH l' (eig_r e) Hl). rewrite <- Hr.
    destruct (take_until (eig_r e) l) as [fs|];
      destruct (take_until (eig_r e) l') as [fs'|]; simpl in *; try discriminate.
    + injection IH as IH. now rewrite He, IH.
    + reflexivity.
Qed.

(** C10.  The loop uses the real parts [r] and [rx] only.  Two answers of the
    solver that differ only in the imaginary parts [c] and [cx] give the same
    run: same [E], same [Psi], same calls.  Entry [k] of [E] is the real
    eigenvalue of eigenpair [k] and the coefficient vector of entry [k] of
    [Psi] is its real eigenvector. *)
Theorem imaginary_parts_are_discarded
        (lib : Library) (V : FunctionSpace) (es es' : SLEPcEigenSolver) (w : world) :
  map real_part (es_computed es) = map real_part (es_computed es') ->
  bound_state_loop lib V es w = bound_state_loop lib V es' w /\
  forall (s : loop_state) (w' : world),
    bound_state_loop lib V es w = (Returned s, w') ->
    forall (k : nat) (x : eigenpair),
      (k < dex s)%nat -> nth_error (es_computed es) k = Some x ->
      getitem (E s) k = Some (eig_r x) /\
      option_map fun_vector (getitem (Psi s) k) = Some (eig_rx x).
Proof.
  intros H. split.
  - rewrite !bound_state_loop_eq.
    pose proof (take_until_real_part _ _ 0%Q H) as HT.
    assert (HL : List.length (es_computed es) = List.length (es_computed es')).
    { rewrite <- (length_map real_part (es_computed es)), H. apply length_map. }
    destruct (take_until 0 (es_computed es)) as [fs|];
      destruct (take_until 0 (es_computed es')) as [fs'|]; simpl in HT;
      try discriminate.
    + injection HT as HT.
      assert (HE : map eig_r fs = map eig_r fs')
        by exact (map_through_real_part fst fs fs' HT).
      assert (HP : map (stored V) fs = map (stored V) fs')
        by exact (map_through_real_part (fun q => mkFunction V (snd q)) fs fs' HT).
      assert (HN : List.length fs = List.length fs').
      { rewrite <- (length_map real_part fs), HT. apply length_map. }
      now rewrite HE, HP, HN.
    + now rewrite HL.
  - intros s w' Hrun k x Hk Hx.
    destruct (collected_entry lib V es w w' s k Hrun Hk) as (y & Hy & HE & HP & _).
    assert (y = x) by congruence. subst y.
    split; [exact HE|]. rewrite HP. reflexivity.
Qed.

Lemma imaginary_parts_are_discarded_witness :
  map real_part (es_computed sample_solver) =
    map real_part (es_computed sample_solver_complex) /\
  bound_state_loop sample_library the_space sample_solver initial_world =
    bound_state_loop sample_library the_space sample_solver_complex initial_world.
Proof.
  split; [reflexivity|].
  exact (proj1 (imaginary_parts_are_discarded
                  sample_library the_space sample_solver sample_solver_complex
                  initial_world eq_refl)).
Defined.

(** ** Geometry *)

Lemma layers_value :
  layers = [mkLayer (0, 250); mkLayer (250, 330); mkLayer (330, 580)].
Proof. reflexivity. Qed.

Lemma getitem_layers_inv (k : nat) (a : Layer) :
  getitem layers k = Some a ->
  (k = 0%nat /\ a = mkLayer (0, 250)) \/
  (k = 1%nat /\ a = mkLayer (250, 330)) \/
  (k = 2%nat /\ a = mkLayer (330, 580)).
Proof.
  rewrite layers_value. unfold getitem.
  destruct k as [|[|[|k]]]; simpl; intros H.
  - left. split; congruence.
  - right; left. split; congruence.
  - right; right. split; congruence.
  - destruct k; discriminate.
Qed.

(** C3.  The three layers are (0, dbar), (dbar, dbar+dwell) and
    (dbar+dwell, dtot) with dtot = 2*dbar + dwell: the first starts at 0, each
    ends where the next starts, the last ends at dtot, every coordinate of
    [0, dtot) lies in a layer and no coordinate lies in two. *)
Theorem layers_tile_the_structure :
  dtot = 2 * dbar + dwell /\
  layers = [mkLayer (0, dbar); mkLayer (dbar, dbar + dwell);
            mkLayer (dbar + dwell, dtot)] /\
  option_map layer_start (getitem layers 0) = Some 0 /\
  (forall k a b, getitem layers k = Some a -> getitem layers (S k) = Some b ->
                 layer_end a = layer_start b) /\
  option_map layer_end (getitem layers (List.length layers - 1)) = Some dtot /\
  (forall x : Q,
      (0 <= x)%Q /\ (x < inject_Z dtot)%Q <->
      exists k a, getitem layers k = Some a /\ in_layer x a) /\
  (forall (x : Q) j k a b,
      getitem layers j = Some a -> getitem layers k = Some b ->
      in_layer x a -> in_layer x b -> j = k).
Proof.
  split; [reflexivity|]. split; [reflexivity|]. split; [reflexivity|].
  split; [|split; [reflexivity|split]].
  - intros k a b Ha Hb.
    destruct (getitem_layers_inv _ _ Ha) as [[-> ->]|[[-> ->]|[-> ->]]];
      destruct (getitem_layers_inv _ _ Hb) as [[E1 ->]|[[E1 ->]|[E1 ->]]];
      try discriminate; reflexivity.
  - intros x. split.
    + intros [H0 H1]. change (inject_Z dtot) with (580 # 1)%Q in H1.
      destruct (Qlt_le_dec x (250 # 1)) as [L1|L1].
      * exists 0%nat, (mkLayer (0, 250)). split; [reflexivity|].
        split; [exact H0 | exact L1].
      * destruct (Qlt_le_dec x (330 # 1)) as [L2|L2].
        -- exists 1%nat, (mkLayer (250, 330)). split; [reflexivity|].
           split; [exact L1 | exact L2].
        -- exists 2%nat, (mkLayer (330, 580)). split; [reflexivity|].
           split; [exact L2 | exact H1].
    + intros (k & a & Ha & [Hs He]).
      change (inject_Z dtot) with (580 # 1)%Q.
      destruct (getitem_layers_inv _ _ Ha) as [[-> ->]|[[-> ->]|[-> ->]]];
        unfold layer_start, layer_end, inject_Z in Hs, He; simpl in Hs, He;
        split; lra.
  - intros x j k a b Ha Hb [Has Hae] [Hbs Hbe].
    destruct (getitem_layers_inv _ _ Ha) as [[-> ->]|[[-> ->]|[-> ->]]];
      destruct (getitem_layers_inv _ _ Hb) as [[-> ->]|[[-> ->]|[-> ->]]];
      try reflexivity;
      unfold layer_start, layer_end, inject_Z in *; simpl in *; lra.
Qed.

(** ** The script up to the eigensolve *)

Lemma Vpot_value :
  Vpot = Some [Constant vbar; Constant vwell; Constant vbar].
Proof. reflexivity. Qed.

Lemma the_h_value :
  hamiltonian_form f [Constant vbar; Constant vwell; Constant vbar]
                   the_u the_v the_domains = Some the_h.
Proof. reflexivity. Qed.

(** Laws of the script monad, oriented for stepping through a script. *)

Lemma bind_ret {A B : Type} (a : A) (k : A -> Script B) (w : world) :
  bind (ret a) k w = k a w.
Proof. reflexivity. Qed.

Lemma bind_emit {B : Type} (ev : event) (k : unit -> Script B) (w : world) :
  bind (emit ev) k w = k tt (with_log w [ev]).
Proof. reflexivity. Qed.

Lemma bind_bind {A B C : Type} (m : Script A) (k1 : A -> Script B)
      (k2 : B -> Script C) (w : world) :
  bind (bind m k1) k2 w = bind m (fun a => bind (k1 a) k2) w.
Proof. unfold bind. destruct (m w) as [[a| |e|] w']; reflexivity. Qed.

Lemma bind_exit {A B : Type} (k : A -> Script B) (w : world) :
  bind exit k w = (Exited, w).
Proof. reflexivity. Qed.

Lemma bind_raise {A B : Type} (e : error) (k : A -> Script B) (w : world) :
  bind (raise e) k w = (Raised e, w).
Proof. reflexivity. Qed.

Lemma bind_index_some {A B : Type} (a : A) (k : A -> Script B) (w : world) :
  bind (index (Some a)) k w = k a w.
Proof. reflexivity. Qed.

Lemma bind_when_true {B : Type} (m : Script unit) (k : unit -> Script B) (w : world) :
  bind (when true m) k w = bind m k w.
Proof. reflexivity. Qed.

Lemma bind_when_false {B : Type} (m : Script unit) (k : unit -> Script B) (w : world) :
  bind (when false m) k w = k tt w.
Proof. reflexivity. Qed.

Lemma bind_write_H {B : Type} (A : PETScMatrix) (k : unit -> Script B) (w : world) :
  bind (write_tensor TensorH A) k w = k tt (mkWorld (Some A) (mat_M w) (log w)).
Proof. reflexivity. Qed.

Lemma bind_write_M {B : Type} (A : PETScMatrix) (k : unit -> Script B) (w : world) :
  bind (write_tensor TensorM A) k w = k tt (mkWorld (mat_H w) (Some A) (log w)).
Proof. reflexivity. Qed.

Lemma for_each_cons {A S : Type} (x : A) (l : list A) (body : A -> S -> Script S) (s : S) :
  for_each (x :: l) body s = bind (body x s) (for_each l body).
Proof. reflexivity. Qed.

Lemma for_each_nil {A S : Type} (body : A -> S -> Script S) (s : S) :
  for_each [] body s = ret s.
Proof. reflexivity. Qed.

Create Rewrite HintDb script.

#[local] Hint Rewrite @bind_bind @bind_ret @bind_emit @bind_exit @bind_raise
  @bind_index_some @bind_when_true @bind_when_false @bind_write_H @bind_write_M
  @for_each_cons @for_each_nil : script.

Ltac script_step := autorewrite with script; cbv beta.

Section Setup.

Variable lib : Library.

Local Open Scope string_scope.

Lemma finite_well_with_absent_petsc (q : Z) :
  has_linear_algebra_backend lib "PETSc" = false ->
  finite_well_with lib q initial_world =
  (Exited,
   mkWorld None None
           [ev_has_linear_algebra_backend "PETSc";
            ev_print "DOLFIN has not been configured with PETSc. Exiting"]).
Proof.
  intros HP. unfold finite_well_with, call_has_linear_algebra_backend, print.
  script_step. rewrite HP. cbn [negb]. script_step. reflexivity.
Qed.

Lemma finite_well_with_present (q : Z) :
  has_linear_algebra_backend lib "PETSc" = true ->
  has_slepc lib = true ->
  finite_well_with lib q initial_world = solve_and_report lib world_before_solve.
Proof.
  intros HP HS.
  unfold finite_well_with, call_has_linear_algebra_backend, call_has_slepc, print.
  script_step. rewrite HP. cbn [negb]. script_step. rewrite HS. cbn [negb]. script_step.
  rewrite Vpot_value. script_step.
  unfold call_RectangleMesh. script_step.
  change (range 3) with [0; 1; 2]%nat. script_step.
  change (getitem layers 0) with (Some (mkLayer (0, dbar))). 
  unfold call_mark at 1. script_step.
  change (getitem layers 1) with (Some (mkLayer (dbar, dbar + dwell))).
  unfold call_mark at 1. script_step.
  change (getitem layers 2) with (Some (mkLayer (dbar + dwell, dtot))).
  unfold call_mark, call_FunctionSpace, call_DirichletBC. script_step.
  change (hamiltonian_form f _ _ _ _) with (Some the_h). script_step.
  unfold new_PETScMatrix, assemble, new_SLEPcEigenSolver, set_parameter.
  script_step.
  reflexivity.
Qed.

Lemma finite_well_with_absent_slepc (q : Z) :
  has_linear_algebra_backend lib "PETSc" = true ->
  has_slepc lib = false ->
  finite_well_with lib q initial_world =
  (Exited,
   mkWorld None None
           [ev_has_linear_algebra_backend "PETSc"; ev_has_slepc;
            ev_print "DOLFIN has not been configured with SLEPc. Exiting"]).
Proof.
  intros HP HS.
  unfold finite_well_with, call_has_linear_algebra_backend, call_has_slepc, print.
  script_step. rewrite HP. cbn [negb]. script_step. rewrite HS. cbn [negb].
  script_step. reflexivity.
Qed.

Lemma solve_configured (w : world) (A B : PETScMatrix) :
  mat_H w = Some A -> mat_M w = Some B ->
  solve lib configured_solver w =
  match slepc_solve lib A B solver_parameters with
  | Some eigs =>
      (Returned (mkSolver TensorH TensorM solver_parameters eigs),
       with_log w [ev_solve])
  | None => (Raised RuntimeError, with_log w [ev_solve])
  end.
Proof.
  intros HA HB.
  unfold solve, configured_solver, bind, emit, read_tensor, ret, raise, with_log.
  simpl. rewrite HA, HB.
  destruct (slepc_solve lib A B solver_parameters); reflexivity.
Qed.

Lemma collected_lengths (V : FunctionSpace) (fs : list eigenpair) :
  List.length (E (collected V fs)) = List.length (Psi (collected V fs)).
Proof. unfold collected; simpl. now rewrite !length_map. Qed.

Lemma solve_and_report_eq (w : world) (A B : PETScMatrix) :
  mat_H w = Some A -> mat_M w = Some B ->
  solve_and_report lib w =
  (outcome_from_solve (slepc_solve lib A B solver_parameters),
   with_log w (events_from_solve lib (slepc_solve lib A B solver_parameters))).
Proof.
  intros HA HB. unfold solve_and_report.
  unfold bind at 1. rewrite (solve_configured w A B HA HB).
  unfold events_from_solve, outcome_from_solve.
  destruct (slepc_solve lib A B solver_parameters) as [eigs|]; [|reflexivity].
  unfold bind at 1. rewrite bound_state_loop_eq. cbn [es_computed].
  destruct (take_until 0 eigs) as [fs|].
  - fold (collected the_space fs).
    unfold bind at 1. rewrite report_eq by apply collected_lengths.
    rewrite !with_log_app. unfold emit, with_log. cbn [mat_H mat_M log].
    f_equal. f_equal. rewrite <- !app_assoc. reflexivity.
  - rewrite with_log_app. reflexivity.
Qed.

End Setup.

(** ** The whole run *)

Lemma finite_well_with_run (lib : Library) (q : Z) :
  has_linear_algebra_backend lib "PETSc" = true ->
  has_slepc lib = true ->
  finite_well_with lib q initial_world =
  (outcome_from_solve (solver_answer lib),
   with_log world_before_solve (events_from_solve lib (solver_answer lib))).
Proof.
  intros HP HS. rewrite (finite_well_with_present lib q HP HS).
  apply solve_and_report_eq; reflexivity.
Qed.

Lemma fetches_late (d n : nat) : Forall (fun ev => is_late ev = true) (fetches d n).
Proof.
  unfold fetches. apply Forall_forall. intros ev Hev.
  apply in_map_iff in Hev. destruct Hev as (i & <- & _). reflexivity.
Qed.

Lemma report_events_late (lib : Library) (s : loop_state) (ks : list nat) :
  Forall (fun ev => is_late ev = true) (flat_map (report_events lib s) ks).
Proof.
  apply Forall_forall. intros ev Hev. apply in_flat_map in Hev.
  destruct Hev as (k & _ & Hk). unfold report_events in Hk.
  destruct (getitem (E s) k); [|contradiction].
  destruct (getitem (Psi s) k); [|contradiction].
  destruct Hk as [<-|[<-|[]]]; reflexivity.
Qed.

Lemma events_from_solve_late (lib : Library) (answer : option (list eigenpair)) :
  Forall (fun ev => is_late ev = true) (events_from_solve lib answer).
Proof.
  unfold events_from_solve. constructor; [reflexivity|].
  destruct answer as [eigs|]; [|constructor].
  destruct (take_until 0 eigs) as [fs|]; [|apply fetches_late].
  apply Forall_app. split; [apply fetches_late|].
  apply Forall_app. split; [apply report_events_late|].
  constructor; [reflexivity | constructor].
Qed.

Lemma filter_none {A : Type} (g : A -> bool) (l : list A) :
  Forall (fun a => g a = false) l -> filter g l = [].
Proof.
  induction 1 as [|a l Ha _ IH]; simpl; [reflexivity|]. now rewrite Ha.
Qed.

Lemma late_is_no_write (ev : event) : is_late ev = true -> is_matrix_write ev = false.
Proof. destruct ev; simpl; congruence. Qed.

Lemma late_is_no_check (ev : event) : is_late ev = true -> is_capability_check ev = false.
Proof. destruct ev; simpl; congruence. Qed.

(** Every function plotted lives on the space of line 135. *)
Lemma plotted_function_space (lib : Library) (answer : option (list eigenpair))
      (u : Function) (title : string) :
  In (ev_plot u title) (events_from_solve lib answer) -> fun_space u = the_space.
Proof.
  unfold events_from_solve. intros [H|H]; [discriminate|].
  destruct answer as [eigs|]; [|contradiction].
  assert (Hf : forall d n, ~ In (ev_plot u title) (fetches d n)).
  { intros d n Hin. unfold fetches in Hin. apply in_map_iff in Hin.
    destruct Hin as (i & Hi & _). discriminate. }
  destruct (take_until 0 eigs) as [fs|]; [|exact (False_ind _ (Hf _ _ H))].
  apply in_app_or in H. destruct H as [H|H]; [exact (False_ind _ (Hf _ _ H))|].
  apply in_app_or in H. destruct H as [H|[H|[]]]; [|discriminate].
  apply in_flat_map in H. destruct H as (k & _ & Hk).
  unfold report_events, getitem, collected in Hk; simpl in Hk.
  destruct (nth_error (map eig_r fs) k); [|contradiction].
  destruct (nth_error (map (stored the_space) fs) k) as [u'|] eqn:Hu; [|contradiction].
  destruct Hk as [Hk|[Hk|[]]]; [discriminate|].
  injection Hk as -> _.
  rewrite nth_error_map in Hu. destruct (nth_error fs k); [|discriminate].
  simpl in Hu. injection Hu as <-. reflexivity.
Qed.

(** C5.  Without PETSc the script asks for it, prints the diagnostic and
    exits; with PETSc but without SLEPc it asks for both, prints the other
    diagnostic and exits.  In both cases nothing else has been called (no
    mesh, no assembly) and the two matrices are unbound.  With both present no
    capability is asked for again, and the script either runs to its end or
    stops on an error raised by the solver. *)
Theorem capability_checks_gate_the_pipeline (lib : Library) :
  (has_linear_algebra_backend lib "PETSc" = false ->
   finite_well lib initial_world =
   (Exited,
    mkWorld None None
            [ev_has_linear_algebra_backend "PETSc";
             ev_print "DOLFIN has not been configured with PETSc. Exiting"])) /\
  (has_linear_algebra_backend lib "PETSc" = true -> has_slepc lib = false ->
   finite_well lib initial_world =
   (Exited,
    mkWorld None None
            [ev_has_linear_algebra_backend "PETSc"; ev_has_slepc;
             ev_print "DOLFIN has not been configured with SLEPc. Exiting"])) /\
  (has_linear_algebra_backend lib "PETSc" = true -> has_slepc lib = true ->
   exists (o : outcome unit) (rest : list event),
     finite_well lib initial_world =
       (o, mkWorld (Some (Assembled the_h)) (Some (Assembled the_m))
                   (capability_checks ++ rest)) /\
     (o = Returned tt \/ o = Raised RuntimeError) /\
     Forall (fun ev => is_capability_check ev = false) rest).
Proof.
  split; [|split].
  - apply finite_well_with_absent_petsc.
  - apply finite_well_with_absent_slepc.
  - intros HP HS.
    exists (outcome_from_solve (solver_answer lib)),
           (setup_events ++ events_from_solve lib (solver_answer lib)).
    split; [|split].
    + unfold finite_well. rewrite (finite_well_with_run lib p HP HS).
      unfold with_log, world_before_solve; cbn [mat_H mat_M log].
      now rewrite <- app_assoc.
    + unfold outcome_from_solve. destruct (solver_answer lib) as [eigs|]; [|now right].
      destruct (take_until 0 eigs); [now left | now right].
    + apply Forall_app. split.
      * repeat constructor.
      * eapply Forall_impl; [|apply events_from_solve_late].
        exact late_is_no_check.
Qed.

Lemma capability_checks_gate_the_pipeline_witness :
  has_linear_algebra_backend library_without_petsc "PETSc" = false /\
  fst (finite_well library_without_petsc initial_world) = Exited /\
  has_linear_algebra_backend library_without_slepc "PETSc" = true /\
  has_slepc library_without_slepc = false /\
  fst (finite_well library_without_slepc initial_world) = Exited.
Proof.
  split; [reflexivity|]. split.
  - rewrite (proj1 (capability_checks_gate_the_pipeline library_without_petsc) eq_refl).
    reflexivity.
  - split; [reflexivity|]. split; [reflexivity|].
    rewrite (proj1 (proj2 (capability_checks_gate_the_pipeline library_without_slepc))
                   eq_refl eq_refl).
    reflexivity.
Defined.

(** C4.  When the script gets past the capability checks, the only calls
    that write into a matrix are the assembly of [h] into [H] and of [m] into
    [M], once each and in this order; at the end [H] and [M] still hold these
    assemblies; the two Dirichlet conditions of line 141 are constructed but
    no Dirichlet condition is applied anywhere; and the run
    depends on the eigensolver only through its answer for these two
    matrices. *)
Theorem matrices_assembled_once_and_never_modified
        (lib : Library) (o : outcome unit) (w : world) :
  has_linear_algebra_backend lib "PETSc" = true -> has_slepc lib = true ->
  finite_well lib initial_world = (o, w) ->
  filter is_matrix_write (log w) =
    [ev_assemble the_h TensorH; ev_assemble the_m TensorM] /\
  mat_H w = Some (Assembled the_h) /\
  mat_M w = Some (Assembled the_m) /\
  Forall (fun bc => In (ev_DirichletBC bc) (log w)) the_bcs /\
  (forall bc t, ~ In (ev_bc_apply bc t) (log w)) /\
  (forall solver,
      solver (Assembled the_h) (Assembled the_m) solver_parameters =
      slepc_solve lib (Assembled the_h) (Assembled the_m) solver_parameters ->
      finite_well (with_solver lib solver) initial_world =
      finite_well lib initial_world).
Proof.
  intros HP HS Hrun. unfold finite_well in *.
  rewrite (finite_well_with_run lib p HP HS) in Hrun.
  injection Hrun as _ <-.
  assert (Hw : filter is_matrix_write
                 (log (with_log world_before_solve
                                (events_from_solve lib (solver_answer lib)))) =
               [ev_assemble the_h TensorH; ev_assemble the_m TensorM]).
  { unfold with_log; cbn [log]. rewrite filter_app.
    rewrite (filter_none is_matrix_write (events_from_solve lib (solver_answer lib))).
    - reflexivity.
    - eapply Forall_impl; [|apply events_from_solve_late]. exact late_is_no_write. }
  split; [exact Hw|]. split; [reflexivity|]. split; [reflexivity|].
  split; [|split].
  - unfold with_log, world_before_solve; cbn [log].
    repeat constructor; apply in_or_app; left; apply in_or_app; right;
      simpl; tauto.
  - intros bc t Hin.
    assert (Hf : In (ev_bc_apply bc t)
                    (filter is_matrix_write
                       (log (with_log world_before_solve
                                      (events_from_solve lib (solver_answer lib))))))
      by (apply filter_In; split; [exact Hin | reflexivity]).
    rewrite Hw in Hf. destruct Hf as [Hf|[Hf|[]]]; discriminate.
  - intros solver Hs.
    rewrite (finite_well_with_run (with_solver lib solver) p HP HS).
    rewrite (finite_well_with_run lib p HP HS).
    unfold solver_answer. cbn [slepc_solve with_solver]. rewrite Hs. reflexivity.
Qed.

Lemma matrices_assembled_once_and_never_modified_witness :
  has_linear_algebra_backend sample_library "PETSc" = true /\
  has_slepc sample_library = true /\
  filter is_matrix_write (log (snd (finite_well sample_library initial_world))) =
    [ev_assemble the_h TensorH; ev_assemble the_m TensorM].
Proof.
  split; [reflexivity|]. split; [reflexivity|].
  exact (proj1 (matrices_assembled_once_and_never_modified
                  sample_library _ _ eq_refl eq_refl
                  (surjective_pairing (finite_well sample_library initial_world)))).
Defined.

(** ** The bilinear forms *)

Section Forms.

Variable point : Type.
Variable integrate : MeshFunction -> nat -> (point -> Q) -> Q.
Variable trial test : point -> Q.
Variable grad_trial grad_test : point -> Q * Q.

Hypothesis integrate_ext :
  forall d k g g', (forall x, (g x == g' x)%Q) ->
                   (integrate d k g == integrate d k g')%Q.

Lemma hamiltonian_integrand_field (V : FunctionSpace) (c v : Q) (x : point) :
  (scalar_field point trial test grad_trial grad_test
     (Add (inner (Mul (Constant c) (grad (TrialFunction V))) (grad (TestFunction V)))
          (Mul (Mul (Constant v) (TrialFunction V)) (TestFunction V))) x
   == c * dot (grad_trial x) (grad_test x) + v * trial x * test x)%Q.
Proof. unfold scalar_field; simpl; unfold dot; simpl. ring. Qed.

(** C6.  The form [h] of line 147 is the sum over the layers k = 0, 1, 2 of
    the integral over the cells tagged k of
    f[k] * (grad u . grad v) + Vpot[k] * u * v, with (hb2m/mbar, vbar) for
    the two barrier layers and (hb2m/mwell, vwell) for the well; the form [m]
    of line 150 is the sum over the same cells of u * v.  Tag k of the cell
    function of the script is the one set by layer k. *)
Theorem forms_are_sums_over_the_layers (V : FunctionSpace) (dx : MeshFunction) :
  exists (Vp : list expr) (h : form),
    Vpot = Some Vp /\
    hamiltonian_form f Vp (TrialFunction V) (TestFunction V) dx = Some h /\
    (form_value point integrate trial test grad_trial grad_test h
     == hamiltonian_spec point integrate trial test grad_trial grad_test dx)%Q /\
    (form_value point integrate trial test grad_trial grad_test
                (mass_form (TrialFunction V) (TestFunction V) dx)
     == mass_spec point integrate trial test dx)%Q /\
    Forall (fun i => is_scalar point trial test grad_trial grad_test (integrand i))
           (h ++ mass_form (TrialFunction V) (TestFunction V) dx) /\
    mf_marks the_domains =
      map (fun kl => (SubLayer (snd kl), fst kl)) (combine [0; 1; 2]%nat layers).
Proof.
  eexists. eexists. split; [reflexivity|]. split; [reflexivity|].
  split; [|split; [|split; [|reflexivity]]].
  - unfold form_value, hamiltonian_spec. cbn [fold_right sum fold_left form_add app
      integrand int_domains int_subdomain layer_coefficients fst snd].
    repeat apply Qplus_comp; try reflexivity;
      apply integrate_ext; intros x; apply hamiltonian_integrand_field.
  - unfold form_value, mass_spec. simpl.
    repeat apply Qplus_comp; try reflexivity;
      apply integrate_ext; intros x; reflexivity.
  - repeat constructor; intros x; eexists; reflexivity.
Qed.

End Forms.

Lemma forms_are_sums_over_the_layers_witness :
  exists (Vp : list expr) (h : form),
    Vpot = Some Vp /\
    hamiltonian_form f Vp the_u the_v the_domains = Some h /\
    (form_value unit (fun _ _ g => g tt) (fun _ => 2) (fun _ => 3)
                (fun _ => (1, 2)) (fun _ => (3, 4)) h
     == hamiltonian_spec unit (fun _ _ g => g tt) (fun _ => 2) (fun _ => 3)
                         (fun _ => (1, 2)) (fun _ => (3, 4)) the_domains)%Q.
Proof.
  destruct (forms_are_sums_over_the_layers
              unit (fun _ _ g => g tt) (fun _ => 2%Q) (fun _ => 3%Q)
              (fun _ => (1, 2)%Q) (fun _ => (3, 4)%Q)
              (fun _ _ g g' H => H tt) the_space the_domains)
    as (Vp & h & H1 & H2 & H3 & _).
  exists Vp, h. split; [exact H1 | split; [exact H2 | exact H3]].
Defined.

(** ** The mesh against the layers *)

(** Whether a point is inside a layer depends on its first coordinate only. *)
Lemma Layer_inside_reads_first_coordinate
      (between : Q -> Z * Z -> bool) (self : Layer) (x0 : Q)
      (rest rest' : list Q) (on_boundary on_boundary' : bool) :
  Layer_inside between self (x0 :: rest) on_boundary =
  Layer_inside between self (x0 :: rest') on_boundary'.
Proof. reflexivity. Qed.

(** A column of the mesh is 29 wide, and neither interface between two
    layers falls on a column boundary. *)
Lemma interfaces_fall_inside_mesh_columns :
  dtot = nel * 29 /\ dbar mod 29 <> 0 /\ (dbar + dwell) mod 29 <> 0.
Proof. repeat split; discriminate. Qed.

(** * Further properties of the script *)

(** ** Runs that fail *)

Lemma take_until_all_below (l : list eigenpair) :
  forall r0, Qltb r0 vbar = true ->
    Forall (fun x => (eig_r x < vbar)%Q) l -> take_until r0 l = None.
Proof.
  induction l as [|e l IH]; intros r0 Hr0 Hall; simpl; rewrite Hr0; [reflexivity|].
  inversion Hall as [|? ? He Hl]; subst.
  apply Qltb_true in He. now rewrite (IH _ He Hl).
Qed.

(** X1.  With both backends present: when the eigensolver fails, the script
    stops on its error right after calling [solve()]; when every computed
    eigenvalue is below the barrier (also when none was computed), the loop
    fetches all of them, asks for one more and the script stops on the
    solver's error.  In both cases the matrices are assembled and nothing is
    reported. *)
Theorem run_fails_without_an_unbound_eigenvalue (lib : Library) :
  has_linear_algebra_backend lib "PETSc" = true -> has_slepc lib = true ->
  (solver_answer lib = None ->
   finite_well lib initial_world =
   (Raised RuntimeError, with_log world_before_solve [ev_solve])) /\
  (forall eigs,
      solver_answer lib = Some eigs ->
      Forall (fun x => (eig_r x < vbar)%Q) eigs ->
      finite_well lib initial_world =
      (Raised RuntimeError,
       with_log world_before_solve
                (ev_solve :: fetches 0 (S (List.length eigs))))).
Proof.
  intros HP HS. unfold finite_well. rewrite (finite_well_with_run lib p HP HS).
  split.
  - intros ->. reflexivity.
  - intros eigs -> Hall. unfold outcome_from_solve, events_from_solve.
    now rewrite (take_until_all_below eigs 0%Q zero_below_vbar Hall).
Qed.

Lemma run_fails_without_an_unbound_eigenvalue_witness :
  solver_answer library_failing_solver = None /\
  fst (finite_well library_failing_solver initial_world) = Raised RuntimeError /\
  Forall (fun x => (eig_r x < vbar)%Q) (firstn 2 sample_eigenpairs) /\
  fst (finite_well library_all_bound initial_world) = Raised RuntimeError.
Proof.
  assert (Hall : Forall (fun x => (eig_r x < vbar)%Q) (firstn 2 sample_eigenpairs))
    by (repeat constructor).
  split; [reflexivity|]. split.
  - rewrite (proj1 (run_fails_without_an_unbound_eigenvalue
                      library_failing_solver eq_refl eq_refl) eq_refl).
    reflexivity.
  - split; [exact Hall|].
    rewrite (proj2 (run_fails_without_an_unbound_eigenvalue
                      library_all_bound eq_refl eq_refl) _ eq_refl Hall).
    reflexivity.
Defined.

(** ** A run that succeeds *)

Lemma printed_app (a b : list event) : printed (a ++ b) = printed a ++ printed b.
Proof. unfold printed. apply flat_map_app. Qed.

Lemma plot_titles_app (a b : list event) :
  plot_titles (a ++ b) = plot_titles a ++ plot_titles b.
Proof. unfold plot_titles. apply flat_map_app. Qed.

Lemma printed_fetches (d n : nat) : printed (fetches d n) = [].
Proof.
  unfold fetches. revert d. induction n as [|n IH]; intros d; [reflexivity|].
  simpl. apply IH.
Qed.

Lemma plot_titles_fetches (d n : nat) : plot_titles (fetches d n) = [].
Proof.
  unfold fetches. revert d. induction n as [|n IH]; intros d; [reflexivity|].
  simpl. apply IH.
Qed.

Lemma printed_reported (lib : Library) (V : FunctionSpace)
      (g : nat -> eigenpair) (ks : list nat) :
  printed (flat_map (fun k => reported lib V k (g k)) ks) =
  map (fun k => ("E[" ++ str_int k ++ "]=" ++ str_float lib (eig_r (g k)))%string) ks.
Proof.
  induction ks as [|k ks IH]; [reflexivity|].
  cbn [flat_map]. rewrite printed_app, IH. reflexivity.
Qed.

Lemma plot_titles_reported (lib : Library) (V : FunctionSpace)
      (g : nat -> eigenpair) (ks : list nat) :
  plot_titles (flat_map (fun k => reported lib V k (g k)) ks) =
  map (fun k => ("Psi[" ++ str_int k ++ "]")%string) ks.
Proof.
  induction ks as [|k ks IH]; [reflexivity|].
  cbn [flat_map]. rewrite plot_titles_app, IH. reflexivity.
Qed.

Lemma report_events_collected (lib : Library) (V : FunctionSpace)
      (pre : list eigenpair) (e : eigenpair) :
  flat_map (report_events lib (collected V (pre ++ [e])))
           (range (boundstates (collected V (pre ++ [e])))) =
  flat_map (fun k => reported lib V k (nth k pre e)) (seq 0 (List.length pre)).
Proof.
  assert (Hb : boundstates (collected V (pre ++ [e])) = Z.of_nat (List.length pre)).
  { unfold boundstates, len, collected. cbn [E].
    rewrite length_map, length_app. simpl. lia. }
  rewrite Hb. unfold range. rewrite Nat2Z.id.
  apply flat_map_ext_on. intros k Hk. apply in_seq in Hk.
  unfold collected. apply report_events_fetched.
  rewrite nth_error_app1 by lia. apply nth_error_nth'. lia.
Qed.

(** X3.  With both backends present, when the solver's eigenvalues stay
    below the barrier for the eigenpairs [pre] and the next one reaches it,
    the script runs to its end and its calls are, in order: the two
    capability checks, the set-up, [solve()], the fetches of indices 0 to
    [len(pre)], one energy line and one plot per eigenpair of [pre], and
    [interactive()].  The console shows the status line followed by the lines
    [E[k]=...] for k = 0, ..., len(pre)-1, and the eigenfunction plots are
    titled [Psi[k]] for the same k. *)
Theorem successful_run_calls_and_output
        (lib : Library) (pre post : list eigenpair) (e : eigenpair) :
  has_linear_algebra_backend lib "PETSc" = true -> has_slepc lib = true ->
  solver_answer lib = Some (pre ++ e :: post) ->
  Forall (fun x => (eig_r x < vbar)%Q) pre ->
  (vbar <= eig_r e)%Q ->
  let n := List.length pre in
  finite_well lib initial_world =
    (Returned tt,
     with_log world_before_solve
              (ev_solve :: fetches 0 (S n) ++
               flat_map (fun k => reported lib the_space k (nth k pre e)) (seq 0 n) ++
               [ev_interactive])) /\
  printed (log (snd (finite_well lib initial_world))) =
    "Computing eigenvalue decomposition. This may take a while."%string ::
    map (fun k => ("E[" ++ str_int k ++ "]=" ++
                   str_float lib (eig_r (nth k pre e)))%string) (seq 0 n) /\
  plot_titles (log (snd (finite_well lib initial_world))) =
    map (fun k => ("Psi[" ++ str_int k ++ "]")%string) (seq 0 n).
Proof.
  intros HP HS Hans Hpre He n.
  assert (Hrun : finite_well lib initial_world =
    (Returned tt,
     with_log world_before_solve
              (ev_solve :: fetches 0 (S n) ++
               flat_map (fun k => reported lib the_space k (nth k pre e)) (seq 0 n) ++
               [ev_interactive]))).
  { unfold finite_well. rewrite (finite_well_with_run lib p HP HS), Hans.
    unfold outcome_from_solve, events_from_solve.
    rewrite (take_until_first pre post e Hpre He 0%Q) by reflexivity.
    rewrite report_events_collected, length_app. simpl List.length.
    subst n. replace (List.length pre + 1)%nat with (S (List.length pre)) by lia.
    reflexivity. }
  split; [exact Hrun|]. rewrite Hrun. unfold with_log. cbn [snd log].
  split.
  - rewrite printed_app.
    change (printed (log world_before_solve))
      with ["Computing eigenvalue decomposition. This may take a while."%string].
    change (ev_solve :: ?l) with ([ev_solve] ++ l).
    rewrite !printed_app, printed_fetches, printed_reported. simpl.
    now rewrite app_nil_r.
  - rewrite plot_titles_app.
    change (plot_titles (log world_before_solve)) with (@nil string).
    change (ev_solve :: ?l) with ([ev_solve] ++ l).
    rewrite !plot_titles_app, plot_titles_fetches, plot_titles_reported. simpl.
    now rewrite app_nil_r.
Qed.

Lemma successful_run_calls_and_output_witness :
  solver_answer sample_library =
    Some (firstn 2 sample_eigenpairs ++
          (0.3, 0, [5; 6], [])%Q :: skipn 3 sample_eigenpairs) /\
  Forall (fun x => (eig_r x < vbar)%Q) (firstn 2 sample_eigenpairs) /\
  (vbar <= 0.3)%Q /\
  printed (log (snd (finite_well sample_library initial_world))) =
    ["Computing eigenvalue decomposition. This may take a while.";
     "E[0]=<float>"; "E[1]=<float>"]%string.
Proof.
  assert (H2 : Forall (fun x => (eig_r x < vbar)%Q) (firstn 2 sample_eigenpairs))
    by (repeat constructor).
  assert (H3 : (vbar <= eig_r (0.3, 0, [5; 6], [])%Q)%Q)
    by (unfold Qle; simpl; lia).
  split; [reflexivity | split; [exact H2 | split; [exact H3|]]].
  destruct (successful_run_calls_and_output
              sample_library (firstn 2 sample_eigenpairs)
              (skipn 3 sample_eigenpairs) (0.3, 0, [5; 6], [])%Q
              eq_refl eq_refl eq_refl H2 H3) as (_ & Hprinted & _).
  rewrite Hprinted. reflexivity.
Defined.

(** ** The reported energies against the whole spectrum *)

Lemma filter_all {A : Type} (g : A -> bool) (l : list A) :
  Forall (fun a => g a = true) l -> filter g l = l.
Proof.
  induction 1 as [|a l Ha _ IH]; simpl; [reflexivity|]. now rewrite Ha, IH.
Qed.

(** A stopped loop has fetched eigenpairs below the barrier and then one that
    is not. *)
Lemma bound_state_loop_split (lib : Library) (V : FunctionSpace)
      (es : SLEPcEigenSolver) (w w' : world) (s : loop_state) :
  bound_state_loop lib V es w = (Returned s, w') ->
  exists pre e rest,
    es_computed es = pre ++ e :: rest /\
    Forall (fun x => below_barrier x = true) pre /\
    below_barrier e = false /\
    E s = map eig_r pre ++ [eig_r e] /\
    boundstates s = Z.of_nat (List.length pre).
Proof.
  intros Hrun.
  destruct (bound_state_loop_returned _ _ _ _ _ _ Hrun)
    as (fs & rest & Hes & T & Hne & -> & _).
  destruct (take_until_below _ _ _ T) as [HB HL].
  destruct fs as [|x fs]; [congruence|].
  assert (Hx : x :: fs <> []) by discriminate.
  rewrite (app_removelast_last x Hx) in Hes, HL |- *.
  remember (removelast (x :: fs)) as pre eqn:Hpre. clear Hpre.
  remember (last (x :: fs) x) as e eqn:He. clear He.
  exists pre, e, rest. rewrite <- app_assoc in Hes.
  rewrite map_app in HL. simpl map in HL. rewrite last_last in HL.
  repeat split.
  - exact Hes.
  - eapply Forall_impl; [|exact HB]. intros a Ha. apply Qltb_true. exact Ha.
  - exact HL.
  - cbn [E]. now rewrite map_app.
  - unfold boundstates, len. cbn [E]. rewrite length_map, length_app. simpl. lia.
Qed.

(** X4.  When the loop stops, the reported count is at most the number of
    computed eigenvalues below the barrier; when the solver's eigenvalues
    ascend with the index, the reported energies are exactly the computed
    eigenvalues below the barrier, in the solver's order. *)
Theorem reported_energies_against_spectrum
        (lib : Library) (V : FunctionSpace) (es : SLEPcEigenSolver)
        (w w' : world) (s : loop_state) :
  bound_state_loop lib V es w = (Returned s, w') ->
  boundstates s <= len (filter below_barrier (es_computed es)) /\
  (ascending (es_computed es) ->
   firstn (Z.to_nat (boundstates s)) (E s) =
   map eig_r (filter below_barrier (es_computed es))).
Proof.
  intros Hrun.
  destruct (bound_state_loop_split _ _ _ _ _ _ Hrun)
    as (pre & e & rest & Hes & Hpre & He & HE & Hb).
  assert (Hf : filter below_barrier (es_computed es) =
               pre ++ filter below_barrier rest).
  { rewrite Hes, filter_app, (filter_all _ _ Hpre). simpl. now rewrite He. }
  split.
  - rewrite Hb, Hf. unfold len. rewrite length_app. lia.
  - intros Hasc.
    assert (Hrest : filter below_barrier rest = []).
    { apply filter_none. apply Forall_forall. intros x Hx.
      apply In_nth_error in Hx. destruct Hx as [i Hi].
      apply Qltb_false. apply Qltb_false in He.
      apply Qle_trans with (eig_r e); [exact He|].
      apply (Hasc (List.length pre) (List.length pre + S i)%nat e x); [lia| |].
      - rewrite Hes, nth_error_app2 by lia. now rewrite Nat.sub_diag.
      - rewrite Hes, nth_error_app2 by lia.
        replace (List.length pre + S i - List.length pre)%nat with (S i) by lia.
        exact Hi. }
    rewrite Hf, Hrest, app_nil_r, Hb, Nat2Z.id, HE.
    rewrite <- (length_map eig_r pre), firstn_app, Nat.sub_diag, firstn_all.
    simpl. now rewrite app_nil_r.
Qed.

Lemma reported_energies_against_spectrum_witness :
  ascending (es_computed sample_solver) /\
  firstn 2 [0.05; 0.2; 0.3]%Q =
  map eig_r (filter below_barrier (es_computed sample_solver)).
Proof.
  split; [exact sample_eigenpairs_ascending|].
  exact (proj2 (reported_energies_against_spectrum
                  sample_library the_space sample_solver _ _ _ sample_loop_run)
               sample_eigenpairs_ascending).
Defined.

(** ** The forms as bilinear forms *)

Section FormProperties.

Variable point : Type.
Variable integrate : MeshFunction -> nat -> (point -> Q) -> Q.

Hypothesis integrate_ext :
  forall d k g g', (forall x, (g x == g' x)%Q) ->
                   (integrate d k g == integrate d k g')%Q.

(** X5.  Both forms are symmetric: exchanging the trial and the test
    function (values and gradients) leaves the value of [h] and of [m]
    unchanged. *)
Theorem forms_are_symmetric
        (u v : point -> Q) (gu gv : point -> Q * Q)
        (V : FunctionSpace) (dx : MeshFunction) (Vp : list expr) (h : form) :
  Vpot = Some Vp ->
  hamiltonian_form f Vp (TrialFunction V) (TestFunction V) dx = Some h ->
  (form_value point integrate v u gv gu h
   == form_value point integrate u v gu gv h)%Q /\
  (form_value point integrate v u gv gu
              (mass_form (TrialFunction V) (TestFunction V) dx)
   == form_value point integrate u v gu gv
                 (mass_form (TrialFunction V) (TestFunction V) dx))%Q.
Proof.
  intros HV Hh. rewrite Vpot_value in HV. injection HV as <-.
  injection Hh as <-. split.
  - unfold form_value. cbn [fold_right sum fold_left form_add app map range seq
      Z.to_nat Pos.to_nat Pos.iter_op Nat.add times_dx
      integrand int_domains int_subdomain].
    repeat apply Qplus_comp; try reflexivity;
      apply integrate_ext; intros x;
      rewrite !hamiltonian_integrand_field; unfold dot; ring.
  - unfold form_value. simpl.
    repeat apply Qplus_comp; try reflexivity;
      apply integrate_ext; intros x; unfold scalar_field; simpl; ring.
Qed.

Hypothesis integrate_nonneg :
  forall d k g, (forall x, (0 <= g x)%Q) -> (0 <= integrate d k g)%Q.

Lemma barrier_coefficients_nonneg :
  (0 <= hb2m / mbar)%Q /\ (0 <= hb2m / mwell)%Q /\ (0 <= vbar)%Q /\ (0 <= vwell)%Q.
Proof. repeat split; unfold Qle; simpl; lia. Qed.

Lemma energy_density_nonneg (c v a : Q) (g : Q * Q) :
  (0 <= c)%Q -> (0 <= v)%Q -> (0 <= c * dot g g + v * a * a)%Q.
Proof.
  intros Hc Hv. unfold dot.
  assert (H1 : (0 <= fst g * fst g)%Q) by nra.
  assert (H2 : (0 <= snd g * snd g)%Q) by nra.
  assert (H3 : (0 <= a * a)%Q) by nra.
  nra.
Qed.

(** X6.  On a single function (trial and test equal), both forms are
    non-negative, for any integral that is non-negative on non-negative
    fields: the factors hb2m/mbar and hb2m/mwell and the potentials vbar and
    vwell are all non-negative. *)
Theorem forms_are_nonnegative
        (u : point -> Q) (gu : point -> Q * Q)
        (V : FunctionSpace) (dx : MeshFunction) (Vp : list expr) (h : form) :
  Vpot = Some Vp ->
  hamiltonian_form f Vp (TrialFunction V) (TestFunction V) dx = Some h ->
  (0 <= form_value point integrate u u gu gu h)%Q /\
  (0 <= form_value point integrate u u gu gu
                   (mass_form (TrialFunction V) (TestFunction V) dx))%Q.
Proof.
  intros HV Hh. rewrite Vpot_value in HV. injection HV as <-.
  injection Hh as <-.
  destruct barrier_coefficients_nonneg as (Hb & Hw & Hvb & Hvw).
  assert (Hsum : forall a b c : Q, (0 <= a -> 0 <= b -> 0 <= c -> 0 <= a + (b + (c + 0)))%Q)
    by (intros; lra).
  split.
  - unfold form_value. cbn [fold_right sum fold_left form_add app map range seq
      Z.to_nat Pos.to_nat Pos.iter_op Nat.add times_dx
      integrand int_domains int_subdomain].
    apply Hsum; apply integrate_nonneg; intros x;
      rewrite hamiltonian_integrand_field; apply energy_density_nonneg;
      assumption.
  - unfold form_value. simpl.
    apply Hsum; apply integrate_nonneg; intros x; unfold scalar_field; simpl; nra.
Qed.

End FormProperties.

Lemma forms_are_symmetric_witness :
  exists (Vp : list expr) (h : form),
    Vpot = Some Vp /\
    hamiltonian_form f Vp the_u the_v the_domains = Some h /\
    (form_value unit (fun _ _ g => g tt) (fun _ => 3) (fun _ => 2)
                (fun _ => (3, 4)) (fun _ => (1, 2)) h
     == form_value unit (fun _ _ g => g tt) (fun _ => 2) (fun _ => 3)
                   (fun _ => (1, 2)) (fun _ => (3, 4)) h)%Q.
Proof.
  exists [Constant vbar; Constant vwell; Constant vbar], the_h.
  split; [reflexivity | split; [reflexivity|]].
  exact (proj1 (forms_are_symmetric
                  unit (fun _ _ g => g tt) (fun _ _ g g' H => H tt)
                  (fun _ => 2%Q) (fun _ => 3%Q) (fun _ => (1, 2)%Q) (fun _ => (3, 4)%Q)
                  the_space the_domains _ the_h eq_refl eq_refl)).
Defined.

Lemma forms_are_nonnegative_witness :
  exists (Vp : list expr) (h : form),
    Vpot = Some Vp /\
    hamiltonian_form f Vp the_u the_v the_domains = Some h /\
    (0 <= form_value unit (fun _ _ g => g tt) (fun _ => 2) (fun _ => 2)
                     (fun _ => (1, 2)) (fun _ => (1, 2)) h)%Q.
Proof.
  exists [Constant vbar; Constant vwell; Constant vbar], the_h.
  split; [reflexivity | split; [reflexivity|]].
  exact (proj1 (forms_are_nonnegative
                  unit (fun _ _ g => g tt) (fun _ _ g H => H tt)
                  (fun _ => 2%Q) (fun _ => (1, 2)%Q)
                  the_space the_domains _ the_h eq_refl eq_refl)).
Defined.

(** ** The periodic boundary *)

Lemma periodic_map_second_coordinate (x y y' : list Q) :
  PeriodicBoundary_map x y = Some y' ->
  exists x1, getitem x 1 = Some x1 /\ getitem y' 1 = Some (x1 - 1.0)%Q.
Proof.
  destruct x as [|x0 [|x1 xs]]; destruct y as [|y0 [|y1 ys]];
    unfold PeriodicBoundary_map, setitem, getitem; simpl;
    intros H; try discriminate.
  injection H as <-. exists x1. split; reflexivity.
Qed.

(** X7.  [map(x, y)] needs two coordinates in [x] and in [y] and raises
    [IndexError] otherwise; when it returns, [y] has kept its size, its first
    entry is [x[0]], its entries from the third on are untouched, and its
    first two entries do not depend on what [y] held before. *)
Theorem periodic_map_writes_two_coordinates (x y : list Q) :
  (PeriodicBoundary_map x y = None <->
   (List.length x < 2)%nat \/ (List.length y < 2)%nat) /\
  (forall y', PeriodicBoundary_map x y = Some y' ->
     List.length y' = List.length y /\
     getitem y' 0 = getitem x 0 /\
     (forall k, (2 <= k)%nat -> getitem y' k = getitem y k) /\
     (forall z z', PeriodicBoundary_map x z = Some z' ->
        getitem y' 0 = getitem z' 0 /\ getitem y' 1 = getitem z' 1)).
Proof.
  destruct x as [|x0 [|x1 xs]]; destruct y as [|y0 [|y1 ys]];
    unfold PeriodicBoundary_map, setitem, getitem; simpl;
    (split; [split; [intros H; try discriminate; lia
                    | intros [H|H]; try reflexivity; lia]
            | intros y' H; try discriminate]).
  injection H as <-. simpl. repeat split.
  - intros k Hk. destruct k as [|[|k]]; try lia. reflexivity.
  - destruct z as [|z0 [|z1 zs]]; simpl in H; try discriminate.
    injection H as <-. reflexivity.
  - destruct z as [|z0 [|z1 zs]]; simpl in H; try discriminate.
    injection H as <-. reflexivity.
Qed.

(** X8.  After [map(x, y)], the point [y] lies in the target of the
    identification exactly when [x[1]] is within [DOLFIN_EPS] of 1. *)
Theorem periodic_image_in_target
        (DOLFIN_EPS : Q) (x y y' : list Q) (on_boundary : bool) :
  PeriodicBoundary_map x y = Some y' ->
  exists x1,
    getitem x 1 = Some x1 /\
    (PeriodicBoundary_inside DOLFIN_EPS y' on_boundary = Some true <->
     (1 - DOLFIN_EPS < x1)%Q /\ (x1 < 1 + DOLFIN_EPS)%Q).
Proof.
  intros H.
  destruct (periodic_map_second_coordinate x y y' H) as (x1 & Hx1 & Hy1).
  exists x1. split; [exact Hx1|].
  unfold PeriodicBoundary_inside. rewrite Hy1. simpl. split.
  - intros Hin. injection Hin as Hin. apply andb_true_iff in Hin.
    destruct Hin as [H1 H2]. apply Qltb_true in H1, H2. split; lra.
  - intros [H1 H2]. f_equal. apply andb_true_iff.
    split; apply Qltb_true; lra.
Qed.

Lemma periodic_image_in_target_witness :
  PeriodicBoundary_map [7; 1]%Q [0; 0]%Q = Some [7; 1 - 1.0]%Q /\
  exists x1,
    getitem [7; 1]%Q 1 = Some x1 /\
    (PeriodicBoundary_inside (3 # 10) [7; 1 - 1.0]%Q false = Some true <->
     (1 - (3 # 10) < x1)%Q /\ (x1 < 1 + (3 # 10))%Q).
Proof.
  split; [reflexivity|].
  exact (periodic_image_in_target (3 # 10) [7; 1]%Q [0; 0]%Q _ false eq_refl).
Defined.

(** X9.  For a positive tolerance of at most dtot - 1, the bottom edge of the
    mesh (y = 0) lies in the target of the identification, but [map] sends
    the top edge (y = dtot) to y = dtot - 1, outside the target: the shift is
    1.0, not the side of the mesh. *)
Theorem mesh_top_edge_is_not_mapped_onto_bottom
        (DOLFIN_EPS x0 : Q) (y : list Q) (on_boundary : bool) :
  (0 < DOLFIN_EPS)%Q -> (DOLFIN_EPS <= inject_Z dtot - 1)%Q ->
  (2 <= List.length y)%nat ->
  PeriodicBoundary_inside DOLFIN_EPS [x0; inject_Z (mesh_y0 the_mesh)] on_boundary
    = Some true /\
  exists y',
    PeriodicBoundary_map [x0; inject_Z (mesh_y1 the_mesh)] y = Some y' /\
    getitem y' 1 = Some (inject_Z dtot - 1.0)%Q /\
    PeriodicBoundary_inside DOLFIN_EPS y' on_boundary = Some false.
Proof.
  intros Hpos Heps Hy.
  change (inject_Z dtot) with (580 # 1)%Q in *.
  split.
  - unfold PeriodicBoundary_inside. simpl. f_equal. apply andb_true_iff.
    split; apply Qltb_true; change (inject_Z 0) with (0 # 1)%Q; lra.
  - destruct y as [|y0 [|y1 ys]]; simpl in Hy; try lia.
    eexists. split; [reflexivity|]. split; [reflexivity|].
    unfold PeriodicBoundary_inside. simpl. f_equal. apply andb_false_iff.
    left. apply Qltb_false. change (inject_Z dtot) with (580 # 1)%Q. lra.
Qed.

Lemma mesh_top_edge_is_not_mapped_onto_bottom_witness :
  (0 < 3 # 10)%Q /\ (3 # 10 <= inject_Z dtot - 1)%Q /\
  (2 <= List.length [0; 0]%Q)%nat /\
  PeriodicBoundary_inside (3 # 10) [7; inject_Z (mesh_y0 the_mesh)]%Q false
    = Some true /\
  exists y',
    PeriodicBoundary_map [7; inject_Z (mesh_y1 the_mesh)]%Q [0; 0]%Q = Some y' /\
    getitem y' 1 = Some (inject_Z dtot - 1.0)%Q /\
    PeriodicBoundary_inside (3 # 10) y' false = Some false.
Proof.
  assert (H1 : (0 < 3 # 10)%Q) by reflexivity.
  assert (H2 : (3 # 10 <= inject_Z dtot - 1)%Q) by (unfold Qle; simpl; lia).
  split; [exact H1 | split; [exact H2 | split; [exact (le_n 2)|]]].
  exact (mesh_top_edge_is_not_mapped_onto_bottom
           (3 # 10) 7 [0; 0]%Q false H1 H2 (le_n 2)).
Defined.

(** ** The declared degree *)

Lemma late_is_no_function_space (ev : event) :
  is_late ev = true -> is_function_space_call ev = false.
Proof. destruct ev; simpl; congruence. Qed.

(** C8.  The function space is built with family "CG" and degree 1 whatever
    the declared degree is.  The run of the script with any value of [p] is
    the run with [p = 2]; every function space created is the space of line
    135, of degree 1, and every plotted eigenfunction lives on it.  With both
    backends present this space is created, once; the two forms that are
    assembled have their trial and test functions on it and on no other
    space; and when the eigenpairs [pre] lie below the barrier and the next
    one does not, each eigenpair of [pre] is plotted as a function on it. *)
Theorem declared_degree_is_unused (lib : Library) (q : Z) :
  finite_well_with lib q initial_world = finite_well lib initial_world /\
  (forall V, In (ev_FunctionSpace V) (log (snd (finite_well_with lib q initial_world))) ->
             V = the_space /\ fs_family V = "CG"%string /\ fs_degree V = 1) /\
  (forall u title,
      In (ev_plot u title) (log (snd (finite_well_with lib q initial_world))) ->
      fs_degree (fun_space u) = 1) /\
  (has_linear_algebra_backend lib "PETSc" = true -> has_slepc lib = true ->
   filter is_function_space_call (log (snd (finite_well_with lib q initial_world))) =
     [ev_FunctionSpace the_space] /\
   fs_family the_space = "CG"%string /\
   fs_degree the_space = 1 /\
   In (ev_assemble the_h TensorH) (log (snd (finite_well_with lib q initial_world))) /\
   In (ev_assemble the_m TensorM) (log (snd (finite_well_with lib q initial_world))) /\
   form_spaces the_h <> [] /\
   form_spaces the_m <> [] /\
   Forall (fun V => V = the_space) (form_spaces the_h ++ form_spaces the_m) /\
   forall (pre post : list eigenpair) (e : eigenpair),
     solver_answer lib = Some (pre ++ e :: post) ->
     Forall (fun x => (eig_r x < vbar)%Q) pre ->
     (vbar <= eig_r e)%Q ->
     forall k, (k < List.length pre)%nat ->
       In (ev_plot (mkFunction the_space (eig_rx (nth k pre e)))
                   ("Psi[" ++ str_int k ++ "]"))
          (log (snd (finite_well_with lib q initial_world)))).
Proof.
  split; [reflexivity|].
  destruct (has_linear_algebra_backend lib "PETSc") eqn:HP.
  - destruct (has_slepc lib) eqn:HS.
    + rewrite (finite_well_with_run lib q HP HS).
      unfold with_log, world_before_solve; cbn [snd log].
      pose proof (events_from_solve_late lib (solver_answer lib)) as Hlate.
      split; [|split].
      * rewrite Forall_forall in Hlate.
        intros V Hin. apply in_app_or in Hin. destruct Hin as [Hin|Hin].
        -- simpl in Hin.
           repeat (destruct Hin as [Hin|Hin]; [try discriminate|]);
             try contradiction.
           injection Hin as <-. repeat split.
        -- apply Hlate in Hin. discriminate.
      * intros u title Hin. apply in_app_or in Hin. destruct Hin as [Hin|Hin].
        -- simpl in Hin.
           repeat (destruct Hin as [Hin|Hin]; [discriminate|]). contradiction.
        -- rewrite (plotted_function_space lib _ u title Hin). reflexivity.
      * intros _ _. split; [|split; [reflexivity|split; [reflexivity|]]].
        { rewrite filter_app.
          rewrite (filter_none is_function_space_call
                               (events_from_solve lib (solver_answer lib))).
          - reflexivity.
          - eapply Forall_impl; [|exact Hlate]. exact late_is_no_function_space. }
        split; [apply in_or_app; left; simpl; tauto|].
        split; [apply in_or_app; left; simpl; tauto|].
        split; [discriminate|]. split; [discriminate|].
        split; [repeat constructor|].
        intros pre post e Hans Hpre He k Hk.
        apply in_or_app. right. rewrite Hans. unfold events_from_solve.
        rewrite (take_until_first pre post e Hpre He 0%Q) by reflexivity.
        rewrite report_events_collected.
        right. apply in_or_app. right. apply in_or_app. left.
        apply in_flat_map. exists k. split; [apply in_seq; lia|].
        unfold reported, stored. right. left. reflexivity.
    + rewrite (finite_well_with_absent_slepc lib q HP HS). simpl.
      split; [|split]; intros;
        repeat (match goal with H : _ \/ _ |- _ => destruct H end);
        try discriminate; contradiction.
  - rewrite (finite_well_with_absent_petsc lib q HP). simpl.
    split; [|split]; intros;
      repeat (match goal with H : _ \/ _ |- _ => destruct H end);
      try discriminate; contradiction.
Qed.

Lemma declared_degree_is_unused_witness :
  has_linear_algebra_backend sample_library "PETSc" = true /\
  has_slepc sample_library = true /\
  filter is_function_space_call
         (log (snd (finite_well_with sample_library 7 initial_world))) =
    [ev_FunctionSpace the_space] /\
  fs_degree the_space = 1.
Proof.
  destruct (proj2 (proj2 (proj2 (declared_degree_is_unused sample_library 7)))
                  eq_refl eq_refl) as (Hcalls & _ & Hdeg & _).
  split; [reflexivity | split; [reflexivity | split; [exact Hcalls | exact Hdeg]]].
Defined.
